(** * webhookify: the client protocol engine (lib/Protocol.js)

    A shallow embedding of the [Protocol] class: the wire codec
    ([encodeMessage], the decoding half of [processMessage]), the
    challenge handshake, the synthesized fetch-reply function and the
    connection lifecycle ([connect], [_reconnect], the listeners attached
    to a transport handle and the two timers).

    Conventions.
    - A JavaScript string is a [string]: the bytes of its UTF-8 encoding.
    - An absent argument or property ([undefined], [null]) is [None];
      the [options] argument of the constructor, for which the two
      differ, is an [argument].
    - The instance [this], the transport handles it created and the
      pending timers form one mutable [World].  A method is a computation
      in a state / trace / exception monad over it: the trace lists what
      the engine does to the outside (events emitted, calls on transport
      handles, timers set and cleared).
    - [this.emit] records the event.  The listeners are the
      application's; they are taken to return normally, and what the
      application calls back ([connect], a reply function) is a turn of
      its own of the event loop.  An error event for which no listener
      is registered is thrown by [emit]: the [Application] says whether
      one is, and where a statement names no application one is
      ([attentive]).
    - The collaborators are models: [Querystring] and [JSON] for the
      Node built-ins the codec calls, the ready states and the [close()]
      of the [ws] client for the transport, and the interface [Runtime]
      for [Buffer.from], the RSA primitive and [new URL]. *)

From Stdlib Require Import ZArith NArith List String Ascii Bool Lia Arith.
From Stdlib Require Import DecimalString Decimal DecimalZ DecimalPos.
From Stdlib Require DecimalFacts.
Import ListNotations.
Local Open Scope string_scope.

Set Implicit Arguments.

(* ================================================================== *)
(** * Part I. Definitions                                              *)
(* ================================================================== *)

(** ** Strings *)

Module Str.

Fixpoint join (sep : string) (l : list string) : string :=
  match l with
  | [] => ""
  | [x] => x
  | x :: r => x ++ sep ++ join sep r
  end.

(** [split c s]: the segments of [s] between occurrences of [c]
    (always at least one segment). *)
Fixpoint split (c : ascii) (s : string) : list string :=
  match s with
  | EmptyString => [""]
  | String a r =>
      if Ascii.eqb a c then "" :: split c r
      else match split c r with
           | [] => [String a ""]
           | x :: xs => String a x :: xs
           end
  end.

(** [cut c s]: [s] cut at the first occurrence of [c]; [None] for the
    second part when [c] does not occur. *)
Fixpoint cut (c : ascii) (s : string) : string * option string :=
  match s with
  | EmptyString => ("", None)
  | String a r =>
      if Ascii.eqb a c then ("", Some r)
      else let (k, v) := cut c r in (String a k, v)
  end.

Fixpoint mem (x : string) (l : list string) : bool :=
  match l with
  | [] => false
  | y :: r => String.eqb x y || mem x r
  end.

Definition hexdigit (upper : bool) (n : N) : ascii :=
  if (n <? 10)%N then ascii_of_N (48 + n)
  else ascii_of_N ((if upper then 55 else 87) + n).

Definition unhex (c : ascii) : option N :=
  let n := N_of_ascii c in
  if ((48 <=? n) && (n <=? 57))%N then Some (n - 48)%N
  else if ((65 <=? n) && (n <=? 70))%N then Some (n - 55)%N
  else if ((97 <=? n) && (n <=? 102))%N then Some (n - 87)%N
  else None.

End Str.

(** ** The [querystring] module of Node (flat key-value wire encoding)

    [stringify] and [parse] with their default separators, escaping and
    key limit.  Percent-decoding is bytewise (the fallback of the runtime
    for bytes that are not UTF-8 is outside this model). *)

Module Querystring.

(** A property value: a string, or an array of strings (what [parse]
    builds for a repeated key). *)
Inductive qsvalue :=
| QStr (s : string)
| QArr (l : list string).

(** The object [parse] returns, in insertion order. *)
Definition qsobject := list (string * qsvalue).

Fixpoint get (o : qsobject) (k : string) : option qsvalue :=
  match o with
  | [] => None
  | (k', v) :: r => if String.eqb k' k then Some v else get r k
  end.

(** Characters [qsEscape] leaves alone: A-Z a-z 0-9 - _ . ! ~ * ' ( ) *)
Definition unreserved (c : ascii) : bool :=
  let n := N_of_ascii c in
  (((65 <=? n) && (n <=? 90)) || ((97 <=? n) && (n <=? 122))
   || ((48 <=? n) && (n <=? 57))
   || (n =? 45) || (n =? 95) || (n =? 46) || (n =? 33) || (n =? 126)
   || (n =? 42) || (n =? 39) || (n =? 40) || (n =? 41))%N.

Fixpoint escape (s : string) : string :=
  match s with
  | EmptyString => ""
  | String c r =>
      if unreserved c then String c (escape r)
      else let n := N_of_ascii c in
           String "%" (String (Str.hexdigit true (n / 16))
                         (String (Str.hexdigit true (n mod 16)) (escape r)))
  end.

(** Decoding of one key or value: ["+"] is a space, [%XX] a byte, a
    [%] not followed by two hex digits stays as it is. *)
Fixpoint unescape (s : string) : string :=
  match s with
  | EmptyString => ""
  | String c t =>
      if Ascii.eqb c "%" then
        match t with
        | String a (String b r) =>
            match Str.unhex a, Str.unhex b with
            | Some x, Some y => String (ascii_of_N (16 * x + y)) (unescape r)
            | _, _ => String c (unescape t)
            end
        | _ => String c (unescape t)
        end
      else String (if Ascii.eqb c "+" then " "%char else c) (unescape t)
  end.

(** [obj[key] = value], turning a repeated key into an array. *)
Fixpoint addKeyValue (o : qsobject) (k v : string) : qsobject :=
  match o with
  | [] => [(k, QStr v)]
  | (k', x) :: r =>
      if String.eqb k' k then
        (k', match x with
             | QStr s => QArr [s; v]
             | QArr l => QArr (l ++ [v])
             end) :: r
      else (k', x) :: addKeyValue r k v
  end.

Definition maxKeys : nat := 1000.

Definition parse (qs : string) : qsobject :=
  fold_left
    (fun o seg =>
       if String.eqb seg "" then o
       else let (k, v) := Str.cut "=" seg in
            addKeyValue o (unescape k)
              (unescape (match v with Some v => v | None => "" end)))
    (firstn maxKeys (Str.split "&" qs)) [].

(** [stringifyPrimitive] followed by [qsEscape]; [undefined] gives the
    empty string. *)
Definition fields (k : string) (v : option qsvalue) : list string :=
  let ks := escape k ++ "=" in
  match v with
  | None => [ks]
  | Some (QStr s) => [ks ++ escape s]
  | Some (QArr l) => map (fun s => ks ++ escape s) l
  end.

Definition stringify (o : list (string * option qsvalue)) : string :=
  Str.join "&" (flat_map (fun kv => fields (fst kv) (snd kv)) o).

(** [String(v)] for a parsed value (an array joins with [","]). *)
Definition toString (v : qsvalue) : string :=
  match v with
  | QStr s => s
  | QArr l => Str.join "," l
  end.

End Querystring.
Export Querystring.

(** ** The [JSON] object of the runtime

    Values are the JSON values with integer numbers, written in plain
    decimal as the runtime writes the integers a double holds exactly (a
    numeral with a fraction or an exponent is outside this model and is
    refused by [parse] like any other syntax error).  The model follows
    the runtime for integers of magnitude at most 2^53 - 1 ([safe]
    below); beyond it the runtime rounds to the nearest double and, from
    1e21, writes an exponent, where [number] keeps every digit.  An
    object is its list of properties in enumeration order; equality of
    values is deep equality. *)

Module JSON.

#[local] Unset Elimination Schemes.
Inductive json :=
| JNull
| JBool (b : bool)
| JNum (n : Z)
| JStr (s : string)
| JArr (l : list json)
| JObj (l : list (string * json)).
#[local] Set Elimination Schemes.

Definition dquote : ascii := "034"%char.
Definition backslash : ascii := "092"%char.

(** *** JSON.stringify *)

Definition quoteChar (c : ascii) : string :=
  let n := N_of_ascii c in
  if (n =? 34)%N then String backslash (String dquote "")
  else if (n =? 92)%N then String backslash (String backslash "")
  else if (n =? 8)%N then String backslash "b"
  else if (n =? 12)%N then String backslash "f"
  else if (n =? 10)%N then String backslash "n"
  else if (n =? 13)%N then String backslash "r"
  else if (n =? 9)%N then String backslash "t"
  else if (n <? 32)%N then
    String backslash
      (String "u" (String "0" (String "0"
         (String (Str.hexdigit false (n / 16))
            (String (Str.hexdigit false (n mod 16)) "")))))
  else String c "".

Fixpoint quoteChars (s : string) : string :=
  match s with
  | EmptyString => ""
  | String c r => quoteChar c ++ quoteChars r
  end.

Definition quote (s : string) : string :=
  String dquote (quoteChars s ++ String dquote "").

Definition number (n : Z) : string := NilZero.string_of_int (Z.to_int n).

Fixpoint print (v : json) : string :=
  match v with
  | JNull => "null"
  | JBool true => "true"
  | JBool false => "false"
  | JNum n => number n
  | JStr s => quote s
  | JArr l => "[" ++ Str.join "," (map print l) ++ "]"
  | JObj l =>
      "{" ++ Str.join ","
               (map (fun kv => match kv with
                               | (k, x) => quote k ++ ":" ++ print x
                               end) l) ++ "}"
  end.

(** [JSON.stringify(v)]: [undefined] for [undefined]. *)
Definition stringify (v : option json) : option string :=
  match v with
  | None => None
  | Some v => Some (print v)
  end.

(** *** JSON.parse *)

Definition is_ws (c : ascii) : bool :=
  let n := N_of_ascii c in
  ((n =? 32) || (n =? 9) || (n =? 10) || (n =? 13))%N.

Definition is_digit (c : ascii) : bool :=
  let n := N_of_ascii c in ((48 <=? n) && (n <=? 57))%N.

Fixpoint skip_ws (s : string) : string :=
  match s with
  | String c r => if is_ws c then skip_ws r else s
  | EmptyString => s
  end.

(** The longest prefix of digits, and what follows it. *)
Fixpoint digits (s : string) : string * string :=
  match s with
  | String c r =>
      if is_digit c then let (d, t) := digits r in (String c d, t)
      else ("", s)
  | EmptyString => ("", s)
  end.

Definition leading_zero (d : string) : bool :=
  match d with
  | String c (String _ _) => Ascii.eqb c "0"
  | _ => false
  end.

Definition parse_number (s : string) : option (Z * string) :=
  let (sign, s1) := match s with
                    | String c r => if Ascii.eqb c "-" then ("-", r) else ("", s)
                    | EmptyString => ("", s)
                    end in
  let (d, rest) := digits s1 in
  if String.eqb d "" || leading_zero d then None
  else match NilZero.int_of_string (sign ++ d) with
       | Some i => Some (Z.of_int i, rest)
       | None => None
       end.

(** UTF-8 bytes of a code point below 2^16 (a [\uXXXX] escape; the two
    halves of a surrogate pair are encoded one by one). *)
Definition utf8 (cp : N) : string :=
  (if cp <? 128 then String (ascii_of_N cp) ""
   else if cp <? 2048 then
     String (ascii_of_N (192 + cp / 64))
       (String (ascii_of_N (128 + cp mod 64)) "")
   else
     String (ascii_of_N (224 + cp / 4096))
       (String (ascii_of_N (128 + (cp / 64) mod 64))
          (String (ascii_of_N (128 + cp mod 64)) "")))%N.

Definition hex4 (a b c d : ascii) : option N :=
  match Str.unhex a, Str.unhex b, Str.unhex c, Str.unhex d with
  | Some x, Some y, Some z, Some w => Some (((x * 16 + y) * 16 + z) * 16 + w)%N
  | _, _, _, _ => None
  end.

(** The character a one-letter escape stands for. *)
Definition escaped (e : ascii) : option ascii :=
  let n := N_of_ascii e in
  (if n =? 34 then Some dquote
   else if n =? 92 then Some backslash
   else if n =? 47 then Some "/"%char
   else if n =? 98 then Some "008"%char
   else if n =? 102 then Some "012"%char
   else if n =? 110 then Some "010"%char
   else if n =? 114 then Some "013"%char
   else if n =? 116 then Some "009"%char
   else None)%N.

Definition prepend (p : string) (r : option (string * string))
  : option (string * string) :=
  match r with
  | Some (s, rest) => Some (p ++ s, rest)
  | None => None
  end.

(** The characters of a string literal after its opening quote, up to
    and including the closing quote. *)
Fixpoint parse_chars (s : string) : option (string * string) :=
  match s with
  | EmptyString => None
  | String c r =>
      if Ascii.eqb c dquote then Some ("", r)
      else if Ascii.eqb c backslash then
        match r with
        | String e r1 =>
            if Ascii.eqb e "u" then
              match r1 with
              | String h1 (String h2 (String h3 (String h4 r2))) =>
                  match hex4 h1 h2 h3 h4 with
                  | Some cp => prepend (utf8 cp) (parse_chars r2)
                  | None => None
                  end
              | _ => None
              end
            else match escaped e with
                 | Some x => prepend (String x "") (parse_chars r1)
                 | None => None
                 end
        | EmptyString => None
        end
      else if (N_of_ascii c <? 32)%N then None
      else prepend (String c "") (parse_chars r)
  end.

Fixpoint drop (n : nat) (s : string) : string :=
  match n, s with
  | S n, String _ r => drop n r
  | _, _ => s
  end.

Definition literal (w : string) (v : json) (s : string)
  : option (json * string) :=
  if String.prefix w s then Some (v, drop (String.length w) s) else None.

(** [o[k] = v] on a property list: a repeated key keeps its place and
    takes the last value. *)
Fixpoint setProperty (o : list (string * json)) (k : string) (v : json)
  : list (string * json) :=
  match o with
  | [] => [(k, v)]
  | (k', x) :: r =>
      if String.eqb k' k then (k', v) :: r
      else (k', x) :: setProperty r k v
  end.

Definition object (members : list (string * json)) : json :=
  JObj (fold_left (fun o kv => setProperty o (fst kv) (snd kv)) members []).

Fixpoint parse_value (fuel : nat) (s : string) {struct fuel}
  : option (json * string) :=
  match fuel with
  | O => None
  | S fuel =>
      match skip_ws s with
      | EmptyString => None
      | String c r as s' =>
          if Ascii.eqb c "n" then literal "null" JNull s'
          else if Ascii.eqb c "t" then literal "true" (JBool true) s'
          else if Ascii.eqb c "f" then literal "false" (JBool false) s'
          else if Ascii.eqb c dquote then
            match parse_chars r with
            | Some (x, rest) => Some (JStr x, rest)
            | None => None
            end
          else if Ascii.eqb c "[" then
            match skip_ws r with
            | String c' rest =>
                if Ascii.eqb c' "]" then Some (JArr [], rest)
                else match parse_elements fuel r with
                     | Some (l, rest) => Some (JArr l, rest)
                     | None => None
                     end
            | EmptyString => None
            end
          else if Ascii.eqb c "{" then
            match skip_ws r with
            | String c' rest =>
                if Ascii.eqb c' "}" then Some (JObj [], rest)
                else match parse_members fuel r with
                     | Some (l, rest) => Some (object l, rest)
                     | None => None
                     end
            | EmptyString => None
            end
          else match parse_number s' with
               | Some (n, rest) => Some (JNum n, rest)
               | None => None
               end
      end
  end
with parse_elements (fuel : nat) (s : string) {struct fuel}
  : option (list json * string) :=
  match fuel with
  | O => None
  | S fuel =>
      match parse_value fuel s with
      | Some (v, rest) =>
          match skip_ws rest with
          | String c rest' =>
              if Ascii.eqb c "," then
                match parse_elements fuel rest' with
                | Some (l, rest'') => Some (v :: l, rest'')
                | None => None
                end
              else if Ascii.eqb c "]" then Some ([v], rest')
              else None
          | EmptyString => None
          end
      | None => None
      end
  end
with parse_members (fuel : nat) (s : string) {struct fuel}
  : option (list (string * json) * string) :=
  match fuel with
  | O => None
  | S fuel =>
      match skip_ws s with
      | String q r =>
          if Ascii.eqb q dquote then
            match parse_chars r with
            | Some (k, rest) =>
                match skip_ws rest with
                | String c rest1 =>
                    if Ascii.eqb c ":" then
                      match parse_value fuel rest1 with
                      | Some (v, rest2) =>
                          match skip_ws rest2 with
                          | String c' rest3 =>
                              if Ascii.eqb c' "," then
                                match parse_members fuel rest3 with
                                | Some (l, rest4) => Some ((k, v) :: l, rest4)
                                | None => None
                                end
                              else if Ascii.eqb c' "}" then Some ([(k, v)], rest3)
                              else None
                          | EmptyString => None
                          end
                      | None => None
                      end
                    else None
                | EmptyString => None
                end
            | None => None
            end
          else None
      | EmptyString => None
      end
  end.

(** [JSON.parse(s)]: [None] when it throws a SyntaxError. *)
Definition parse (s : string) : option json :=
  match parse_value (S (String.length s)) s with
  | Some (v, rest) =>
      match skip_ws rest with
      | EmptyString => Some v
      | String _ _ => None
      end
  | None => None
  end.

(** The own property [k] of an object; [None] is [undefined]. *)
Fixpoint lookup (o : list (string * json)) (k : string) : option json :=
  match o with
  | [] => None
  | (k', x) :: r => if String.eqb k' k then Some x else lookup r k
  end.

End JSON.
Export JSON.

(** *** Values that survive serialization

    [wellFormed v]: no object of [v] has a repeated key.  [size v]
    bounds the recursion depth [parse_value] needs for the text of [v]. *)

Fixpoint unique (l : list string) : bool :=
  match l with
  | [] => true
  | x :: r => negb (Str.mem x r) && unique r
  end.

Fixpoint wellFormed (v : json) : bool :=
  match v with
  | JArr l => forallb wellFormed l
  | JObj l =>
      unique (map fst l)
      && forallb (fun kv => match kv with (_, x) => wellFormed x end) l
  | _ => true
  end.

Fixpoint size (v : json) : nat :=
  match v with
  | JArr l => S (fold_right (fun x n => S (size x + n)) 0 l)
  | JObj l =>
      S (fold_right (fun kv n => match kv with (_, x) => S (size x + n) end) 0 l)
  | _ => 1
  end.


(** [has c s]: the character [c] occurs in [s]. *)
Fixpoint has (c : ascii) (s : string) : bool :=
  match s with
  | EmptyString => false
  | String a r => Ascii.eqb a c || has c r
  end.

(** What may follow a value in a text: anything but a digit. *)
Definition follows (rest : string) : bool :=
  match rest with
  | String c _ => negb (JSON.is_digit c)
  | EmptyString => true
  end.

(** [roundtrips v]: with enough fuel, [parse_value] reads [v] back from
    its text, whatever follows the text (a digit apart). *)
Definition roundtrips (v : json) : Prop :=
  forall (fuel : nat) (rest : string),
    wellFormed v = true -> size v <= fuel -> follows rest = true ->
    JSON.parse_value fuel (JSON.print v ++ rest) = Some (v, rest).

(** ** The runtime pieces the handshake relies on *)

(** [Buffer.from(v, "base64")],
    [crypto.privateDecrypt(key, buf).toString("utf8")] and the text of
    [new URL(input, base)]; [None] when the call throws.
    [Buffer.from(undefined, ...)] throws a TypeError. *)
Class Runtime := {
  Buffer_from : option json -> option string;
  privateDecrypt : string -> string -> option string;
  URL : string -> string -> option string;
  Buffer_from_undefined : Buffer_from None = None
}.

(** ** The instance, the transport and the timers *)

Definition handle := nat.
Definition timer := nat.

Inductive ReadyState := CONNECTING | OPEN | CLOSING | CLOSED.

Definition ReadyState_eqb (a b : ReadyState) : bool :=
  match a, b with
  | CONNECTING, CONNECTING | OPEN, OPEN | CLOSING, CLOSING | CLOSED, CLOSED => true
  | _, _ => false
  end.

(** A transport handle: [onceClose] and [onceUnexpected] tell whether the
    listener registered with [once] is still attached. *)
Record WebSocket := {
  url : string;
  readyState : ReadyState;
  onceClose : bool;
  onceUnexpected : bool
}.

Record Options := {
  reconnect : bool;
  ignoreErrors : bool;
  reconnectDelay : Z
}.

(** A plain object given as [options]: the keys it supplies, each with
    a value of its documented type. *)
Record Overrides := {
  given_reconnect : option bool;
  given_ignoreErrors : option bool;
  given_reconnectDelay : option Z
}.

Record Protocol := {
  clientId : string;
  _privateKey : string;
  _options : Options;
  _socket : option handle;
  _reconnectTimeout : option timer;
  _pingTimeout : option timer;
  _disconnectEmitted : bool
}.

Inductive exception :=
| Error (message : string)
| TypeError (message : string).

Definition message (e : exception) : string :=
  match e with Error m | TypeError m => m end.

(** The arrow function [_generateReplyFunction] returns: a closure over
    [id] (and [this]). *)
Inductive replyFunction := ReplyFunction (id : qsvalue).

Inductive event :=
| connected
| disconnected (code : Z) (reason : string)
| push (plugin : option qsvalue) (payload : json)
| fetch (plugin : option qsvalue) (payload : json) (reply : replyFunction)
| error (err : exception).

(** The two timer callbacks (closures over [this]). *)
Inductive callback := reconnectCallback | pingCallback.

Record Timeout := { tid : timer; tcallback : callback; tdelay : Z }.

(** What the engine does to the outside: events handed to the
    application, calls on transport handles, timers. *)
Inductive action :=
| Emit (e : event)
| NewWebSocket (h : handle) (address : string)
| Send (h : handle) (data : string)
| Close (h : handle)
| SetTimeout (t : timer) (cb : callback) (delay : Z)
| ClearTimeout (t : timer).

Record World := {
  this : Protocol;
  sockets : list WebSocket;
  timers : list Timeout;
  nextTimer : timer
}.

(** ** The monad of methods *)

Inductive completion (A : Type) :=
| Normal (a : A)
| Throw (e : exception).
Arguments Normal {A} a.
Arguments Throw {A} e.

Definition M (A : Type) := World -> completion A * World * list action.

Definition ret {A} (a : A) : M A := fun w => (Normal a, w, []).

Definition bind {A B} (m : M A) (k : A -> M B) : M B :=
  fun w =>
    match m w with
    | (Normal a, w1, t1) =>
        match k a w1 with (r, w2, t2) => (r, w2, (t1 ++ t2)%list) end
    | (Throw e, w1, t1) => (Throw e, w1, t1)
    end.

Definition throw {A} (e : exception) : M A := fun w => (Throw e, w, []).

Notation "x <- c1 ;; c2" := (bind c1 (fun x => c2))
  (at level 61, c1 at next level, right associativity).
Notation "c1 ;; c2" := (bind c1 (fun _ => c2))
  (at level 61, right associativity).

Definition getThis : M Protocol := fun w => (Normal (this w), w, []).

Definition setThis (f : Protocol -> Protocol) : M unit :=
  fun w => (Normal tt,
            {| this := f (this w); sockets := sockets w;
               timers := timers w; nextTimer := nextTimer w |}, []).

Definition tell (a : action) : M unit := fun w => (Normal tt, w, [a]).

(** The application, as far as [emit] depends on it: whether it has a
    listener registered for the error event. *)
Class Application := { errorListener : bool }.

(** An application that listens to the error event, as the README has
    it: the one meant wherever no other is named. *)
#[export] Instance attentive : Application := {| errorListener := true |}.


(** [this.emit(...)]: the listeners are the application's and return
    normally.  An error event that no listener is registered for is
    thrown. *)
Definition emit {application : Application} (e : event) : M unit :=
  match e with
  | error err => if errorListener then tell (Emit e) else throw err
  | _ => tell (Emit e)
  end.

(** *** Field assignments *)

Definition set_socket (s : option handle) (p : Protocol) : Protocol :=
  {| clientId := clientId p; _privateKey := _privateKey p;
     _options := _options p; _socket := s;
     _reconnectTimeout := _reconnectTimeout p;
     _pingTimeout := _pingTimeout p;
     _disconnectEmitted := _disconnectEmitted p |}.

Definition set_reconnectTimeout (t : option timer) (p : Protocol) : Protocol :=
  {| clientId := clientId p; _privateKey := _privateKey p;
     _options := _options p; _socket := _socket p;
     _reconnectTimeout := t;
     _pingTimeout := _pingTimeout p;
     _disconnectEmitted := _disconnectEmitted p |}.

Definition set_pingTimeout (t : option timer) (p : Protocol) : Protocol :=
  {| clientId := clientId p; _privateKey := _privateKey p;
     _options := _options p; _socket := _socket p;
     _reconnectTimeout := _reconnectTimeout p;
     _pingTimeout := t;
     _disconnectEmitted := _disconnectEmitted p |}.

Definition set_disconnectEmitted (b : bool) (p : Protocol) : Protocol :=
  {| clientId := clientId p; _privateKey := _privateKey p;
     _options := _options p; _socket := _socket p;
     _reconnectTimeout := _reconnectTimeout p;
     _pingTimeout := _pingTimeout p;
     _disconnectEmitted := b |}.

Definition set_reconnect (b : bool) (p : Protocol) : Protocol :=
  {| clientId := clientId p; _privateKey := _privateKey p;
     _options := {| reconnect := b;
                    ignoreErrors := ignoreErrors (_options p);
                    reconnectDelay := reconnectDelay (_options p) |};
     _socket := _socket p;
     _reconnectTimeout := _reconnectTimeout p;
     _pingTimeout := _pingTimeout p;
     _disconnectEmitted := _disconnectEmitted p |}.

(** *** The transport: the [ws] client *)

Definition stateOf (w : World) (h : handle) : ReadyState :=
  match nth_error (sockets w) h with
  | Some s => readyState s
  | None => CLOSED
  end.

Fixpoint update {A} (l : list A) (i : nat) (f : A -> A) : list A :=
  match l, i with
  | [], _ => []
  | x :: r, O => f x :: r
  | x :: r, S i => x :: update r i f
  end.

Definition withSockets (f : list WebSocket -> list WebSocket) : M unit :=
  fun w => (Normal tt,
            {| this := this w; sockets := f (sockets w);
               timers := timers w; nextTimer := nextTimer w |}, []).

Definition set_readyState (r : ReadyState) (s : WebSocket) : WebSocket :=
  {| url := url s; readyState := r;
     onceClose := onceClose s; onceUnexpected := onceUnexpected s |}.

(** [new WebSocket(address)] with the listeners [connect] attaches. *)
Definition newWebSocket (address : string) : M handle :=
  fun w =>
    let h := List.length (sockets w) in
    (Normal h,
     {| this := this w;
        sockets := (sockets w ++ [{| url := address; readyState := CONNECTING;
                                     onceClose := true; onceUnexpected := true |}])%list;
        timers := timers w; nextTimer := nextTimer w |},
     [NewWebSocket h address]).

Definition socketReadyState (h : handle) : M ReadyState :=
  fun w => (Normal (stateOf w h), w, []).

(** [socket.close()]: starts the closing handshake (or aborts the opening
    one); the handle is CLOSING until its close event. *)
Definition socketClose (h : handle) : M unit :=
  withSockets (fun l => update l h (fun s =>
     match readyState s with
     | CLOSED => s
     | _ => set_readyState CLOSING s
     end)) ;;
  tell (Close h).

Definition socketSend (h : handle) (data : string) : M unit :=
  tell (Send h data).

(** *** Timers *)

Definition setTimeout (cb : callback) (delay : Z) : M timer :=
  fun w =>
    let t := nextTimer w in
    (Normal t,
     {| this := this w; sockets := sockets w;
        timers := (timers w ++ [{| tid := t; tcallback := cb; tdelay := delay |}])%list;
        nextTimer := S t |},
     [SetTimeout t cb delay]).

Definition removeTimer (t : timer) (l : list Timeout) : list Timeout :=
  filter (fun x => negb (Nat.eqb (tid x) t)) l.

Definition clearTimeout (t : timer) : M unit :=
  fun w =>
    (Normal tt,
     {| this := this w; sockets := sockets w;
        timers := removeTimer t (timers w); nextTimer := nextTimer w |},
     [ClearTimeout t]).

(** ** The class [Protocol] *)

Definition ADDRESS : string := "wss://ws.webhookify.net".
Arguments ADDRESS : simpl never.

Definition orDefault {A} (d : A) (o : option A) : A :=
  match o with Some x => x | None => d end.

(** The caller's [options] argument: not passed (or [undefined]),
    [null], a plain object, or any other value, given by its text
    [String(value)]. *)
Inductive argument :=
| Undefined
| Null
| PlainObject (o : Overrides)
| Other (text : string).

Definition defaults : Options :=
  {| reconnect := true;
     ignoreErrors := true;
     reconnectDelay := 2000 |}.

(** One option object merged over [d]: a supplied key wins. *)
Definition merge (d : Options) (o : Overrides) : Options :=
  {| reconnect := orDefault (reconnect d) (given_reconnect o);
     ignoreErrors := orDefault (ignoreErrors d) (given_ignoreErrors o);
     reconnectDelay := orDefault (reconnectDelay d) (given_reconnectDelay o) |}.

(** [mergeOptions(defaults, options)]: an [undefined] argument is
    skipped, a plain object is merged, any other value is refused with
    a TypeError. *)
Definition mergeOptions (d : Options) (options : argument)
  : completion Options :=
  match options with
  | Undefined => Normal d
  | PlainObject o => Normal (merge d o)
  | Null => Throw (TypeError "`null` is not an Option Object")
  | Other text =>
      Throw (TypeError ("`" ++ text ++ "` is not an Option Object"))
  end.

(** The instance the constructor builds once its guard and the merge
    have passed; [options] is the option object, if one was given. *)
Definition initialize (clientId privateKeyRaw : string)
    (options : option Overrides) : Protocol :=
  {| clientId := clientId;
     _privateKey := privateKeyRaw;
     _options := match options with
                 | Some o => merge defaults o
                 | None => defaults
                 end;
     _socket := None;
     _reconnectTimeout := None;
     _pingTimeout := None;
     _disconnectEmitted := false |}.

Definition constructor (clientId privateKeyRaw : option string)
    (options : argument) : completion Protocol :=
  match clientId, privateKeyRaw with
  | Some c, Some k =>
      match mergeOptions defaults options with
      | Normal merged =>
          Normal {| clientId := c;
                    _privateKey := k;
                    _options := merged;
                    _socket := None;
                    _reconnectTimeout := None;
                    _pingTimeout := None;
                    _disconnectEmitted := false |}
      | Throw e => Throw e
      end
  | _, _ => Throw (Error "Missing arguments")
  end.

Definition encodeMessage (type : string) (id : qsvalue) (payload : option json)
  : string :=
  Querystring.stringify
    [("type", Some (QStr type));
     ("id", Some id);
     ("payload", option_map QStr (JSON.stringify payload))].

(** The promise [sendReply] / [sendError] return: it settles with the
    transport's completion callback, or is rejected at once when the
    executor throws ([this._socket] is [null]). *)
Inductive promise := Pending | Rejected (e : exception).

Definition transmit (message : string) : M promise :=
  p <- getThis ;;
  match _socket p with
  | Some h => socketSend h message ;; ret Pending
  | None => ret (Rejected (TypeError "Cannot read properties of null"))
  end.

Definition sendReply (id : qsvalue) (payload : option json) : M promise :=
  let message := encodeMessage "reply" id payload in
  transmit message.

Definition sendError (id : qsvalue) (err : exception) : M promise :=
  let message :=
    encodeMessage "error" id (Some (JObj [("message", JStr (message err))])) in
  transmit message.

Definition _generateReplyFunction (id : qsvalue) : replyFunction :=
  ReplyFunction id.

(** Calling the arrow function [(err, response) => ...]. *)
Definition call (f : replyFunction) (err : option exception)
    (response : option json) : M promise :=
  match f with
  | ReplyFunction id => sendReply id response
  end.

(** The property read [payload.k]: a TypeError on [null], [undefined]
    on a value that has no such property. *)
Definition property (payload : json) (k : string) : M (option json) :=
  match payload with
  | JNull => throw (TypeError "Cannot read properties of null")
  | JObj l => ret (JSON.lookup l k)
  | _ => ret None
  end.

Section Methods.

Context {runtime : Runtime} {application : Application}.

(** The body of the [try] in [_handleChallenge]. *)
Definition decryptChallenge (key : string) (challenge : option json)
  : option string :=
  match Buffer_from challenge with
  | Some buf => privateDecrypt key buf
  | None => None
  end.

Definition _handleChallenge (id : qsvalue) (payload : json) : M unit :=
  challenge <- property payload "challenge" ;;
  p <- getThis ;;
  match decryptChallenge (_privateKey p) challenge with
  | Some response =>
      sendReply id (Some (JObj [("response", JStr response)])) ;;
      ret tt
  | None =>
      emit (error (Error
        "The provided private key failed to decrypt the challenge.")) ;;
      p <- getThis ;;
      match _socket p with
      | Some h =>
          setThis (set_reconnect false) ;;
          r <- socketReadyState h ;;
          (if ReadyState_eqb r CLOSED then ret tt else socketClose h) ;;
          setThis (set_socket None)
      | None => ret tt
      end
  end.

Definition _reconnect : M unit :=
  p <- getThis ;;
  match _reconnectTimeout p with
  | Some _ => ret tt
  | None =>
      t <- setTimeout reconnectCallback (reconnectDelay (_options p)) ;;
      setThis (set_reconnectTimeout (Some t))
  end.

(** The part of [connect] after the guards: open a transport handle.
    [new URL] throws a TypeError for an input it cannot parse. *)
Definition openSocket : M unit :=
  p <- getThis ;;
  match URL ("/" ++ clientId p) ADDRESS with
  | Some address =>
      h <- newWebSocket address ;;
      setThis (set_socket (Some h))
  | None => throw (TypeError "Invalid URL")
  end.

Definition connect : M unit :=
  p <- getThis ;;
  match _pingTimeout p with
  | Some t => clearTimeout t ;; setThis (set_pingTimeout None)
  | None => ret tt
  end ;;
  p <- getThis ;;
  match _socket p with
  | Some h =>
      r <- socketReadyState h ;;
      if ReadyState_eqb r CLOSED
      then setThis (set_socket None) ;; openSocket
      else socketClose h
  | None => openSocket
  end.

(** *** The listeners [connect] attaches *)

Definition onOpen : M unit :=
  setThis (set_disconnectEmitted false) ;;
  emit connected.

Definition onClose (code : Z) (reason : string) : M unit :=
  p <- getThis ;;
  (if _disconnectEmitted p then ret tt
   else setThis (set_disconnectEmitted true) ;;
        emit (disconnected code reason)) ;;
  p <- getThis ;;
  if reconnect (_options p) then _reconnect else ret tt.

Definition onUnexpectedResponse (statusCode : Z) : M unit :=
  p <- getThis ;;
  (if _disconnectEmitted p then ret tt
   else setThis (set_disconnectEmitted true) ;;
        emit (disconnected statusCode "")) ;;
  p <- getThis ;;
  if reconnect (_options p) then _reconnect else ret tt.

Definition onError (err : exception) : M unit :=
  p <- getThis ;;
  if ignoreErrors (_options p) then ret tt else emit (error err).

Definition onPing : M unit :=
  p <- getThis ;;
  match _pingTimeout p with
  | Some t => clearTimeout t
  | None => ret tt
  end ;;
  t <- setTimeout pingCallback 30000 ;;
  setThis (set_pingTimeout (Some t)).

(** *** The timer callbacks *)

Definition reconnectTimeoutCallback : M unit :=
  setThis (set_reconnectTimeout None) ;;
  connect.

Definition pingTimeoutCallback : M unit :=
  emit (disconnected 0 "Ping timeout") ;;
  setThis (set_pingTimeout None) ;;
  p <- getThis ;;
  if reconnect (_options p) then _reconnect else ret tt.

(** *** Dispatch *)

Definition includes (l : list string) (type : qsvalue) : bool :=
  match type with
  | QStr s => Str.mem s l
  | QArr _ => false
  end.

Definition processMessage (message : string) : M unit :=
  let messageParsed := Querystring.parse message in
  let type := Querystring.get messageParsed "type" in
  let id := Querystring.get messageParsed "id" in
  let payloadRaw := Querystring.get messageParsed "payload" in
  let plugin := Querystring.get messageParsed "plugin" in
  match type, id, payloadRaw with
  | Some type, Some id, Some payloadRaw =>
      if negb (includes ["push"; "fetch"; "challenge"] type) then ret tt
      else
        match JSON.parse (Querystring.toString payloadRaw) with
        | None => ret tt
        | Some payload =>
            match type with
            | QStr type =>
                if String.eqb type "challenge" then _handleChallenge id payload
                else if String.eqb type "push" then emit (push plugin payload)
                else if String.eqb type "fetch" then
                  emit (fetch plugin payload (_generateReplyFunction id))
                else ret tt
            | QArr _ => ret tt
            end
        end
  | _, _, _ => ret tt
  end.

Definition onMessage (data : string) : M unit := processMessage data.

(** ** The event loop

    One input is one turn of the loop: a call by the application, an
    event of a transport handle, or a timer that fires. *)

Inductive input :=
| AppConnect
| AppReply (f : replyFunction) (err : option exception) (response : option json)
| SockOpen (h : handle)
| SockClose (h : handle) (code : Z) (reason : string)
| SockUnexpectedResponse (h : handle) (statusCode : Z)
| SockError (h : handle) (err : exception)
| SockMessage (h : handle) (data : string)
| SockPing (h : handle)
| TimerFired (t : timer).

Definition findTimer (w : World) (t : timer) : option Timeout :=
  find (fun x => Nat.eqb (tid x) t) (timers w).

Definition exists_ (w : World) (h : handle) : bool :=
  Nat.ltb h (List.length (sockets w)).

(** What the transport and the timers can deliver in world [w]. *)
Definition enabled (w : World) (i : input) : bool :=
  match i with
  | AppConnect | AppReply _ _ _ => true
  | SockOpen h | SockUnexpectedResponse h _ =>
      exists_ w h && ReadyState_eqb (stateOf w h) CONNECTING
  | SockClose h _ _ =>
      exists_ w h && negb (ReadyState_eqb (stateOf w h) CLOSED)
  | SockError h _ => exists_ w h
  | SockMessage h _ | SockPing h =>
      exists_ w h && (ReadyState_eqb (stateOf w h) OPEN
                      || ReadyState_eqb (stateOf w h) CLOSING)
  | TimerFired t =>
      match findTimer w t with Some _ => true | None => false end
  end.

Definition markSocket (h : handle) (f : WebSocket -> WebSocket) : M unit :=
  withSockets (fun l => update l h f).

Definition listening (w : World) (h : handle) (f : WebSocket -> bool) : bool :=
  match nth_error (sockets w) h with
  | Some s => f s
  | None => false
  end.

Definition detachClose (s : WebSocket) : WebSocket :=
  {| url := url s; readyState := readyState s;
     onceClose := false; onceUnexpected := onceUnexpected s |}.

Definition detachUnexpected (s : WebSocket) : WebSocket :=
  {| url := url s; readyState := readyState s;
     onceClose := onceClose s; onceUnexpected := false |}.

(** The transport's own bookkeeping, then the listener. *)
Definition deliver (i : input) : M unit :=
  match i with
  | AppConnect => connect
  | AppReply f err response => call f err response ;; ret tt
  | SockOpen h => markSocket h (set_readyState OPEN) ;; onOpen
  | SockClose h code reason =>
      markSocket h (set_readyState CLOSED) ;;
      fun w =>
        if listening w h onceClose
        then (markSocket h detachClose ;; onClose code reason) w
        else ret tt w
  | SockUnexpectedResponse h statusCode =>
      fun w =>
        if listening w h onceUnexpected
        then (markSocket h detachUnexpected ;;
              onUnexpectedResponse statusCode) w
        else ret tt w
  | SockError h err => onError err
  | SockMessage h data => onMessage data
  | SockPing h => onPing
  | TimerFired t =>
      fun w =>
        match findTimer w t with
        | Some x =>
            ((fun w => (Normal tt,
                        {| this := this w; sockets := sockets w;
                           timers := removeTimer t (timers w);
                           nextTimer := nextTimer w |}, [])) ;;
             match tcallback x with
             | reconnectCallback => reconnectTimeoutCallback
             | pingCallback => pingTimeoutCallback
             end) w
        | None => ret tt w
        end
  end.

(** One turn: an input that cannot occur in [w] changes nothing. *)
Definition step (i : input) (w : World) : World * list action :=
  if enabled w i
  then match deliver i w with (_, w', t) => (w', t) end
  else (w, []).

Fixpoint run (inputs : list input) (w : World) : World * list action :=
  match inputs with
  | [] => (w, [])
  | i :: r =>
      let (w1, t1) := step i w in
      let (w2, t2) := run r w1 in
      (w2, (t1 ++ t2)%list)
  end.

Definition initial (p : Protocol) : World :=
  {| this := p; sockets := []; timers := []; nextTimer := 0 |}.

(** *** Episodes

    [expires w i]: input [i] is the expiry of a liveness timer in [w].
    [withinEpisode inputs w]: run from [w], the inputs contain no open
    event and no liveness expiry. *)





(** *** Well-formed worlds *)

(** A handle that is connecting or open. *)
Definition active (w : World) (h : handle) : bool :=
  exists_ w h && (ReadyState_eqb (stateOf w h) CONNECTING
                  || ReadyState_eqb (stateOf w h) OPEN).

(** [othersIn P s l]: the handle [s] the instance holds exists in [l],
    and every other handle of [l] is in a state of [P]. *)
Definition othersIn (P : ReadyState -> Prop) (s : option handle)
    (l : list WebSocket) : Prop :=
  (forall h, s = Some h -> h < List.length l)
  /\ (forall h x, nth_error l h = Some x -> s <> Some h -> P (readyState x)).

Definition closingOrClosed (r : ReadyState) : Prop :=
  r = CLOSING \/ r = CLOSED.

Definition closed (r : ReadyState) : Prop := r = CLOSED.

(** Every handle but the held one is closing or closed. *)
Definition tidy (w : World) : Prop :=
  othersIn closingOrClosed (_socket (this w)) (sockets w).

(** Every handle but the held one is closed. *)
Definition strict (w : World) : Prop :=
  othersIn closed (_socket (this w)) (sockets w).

(** The error event of a failed handshake. *)
Definition isHandshakeFailure (a : action) : bool :=
  match a with
  | Emit (error (Error m)) =>
      String.eqb m "The provided private key failed to decrypt the challenge."
  | _ => false
  end.

(** Timer handles are fresh: every pending one was allocated before
    [nextTimer]. *)
Definition wellTimed (w : World) : Prop :=
  Forall (fun x => tid x < nextTimer w) (timers w).

End Methods.

(** ** The codec as the specification words it

    [Decode] follows section 4.1 of the specification: absent when
    [type], [id] or [payload] is missing, when [type] is not an inbound
    type, or when [payload] is not valid JSON.  [dispatch] is the routing
    of a decoded message.  The theorems relate both to [processMessage]. *)

Record WireMessage := {
  wtype : string;
  wid : qsvalue;
  wplugin : option qsvalue;
  wpayload : json
}.

Definition Decode (wireString : string) : option WireMessage :=
  let kv := Querystring.parse wireString in
  match Querystring.get kv "type", Querystring.get kv "id",
        Querystring.get kv "payload" with
  | Some (QStr t), Some i, Some p =>
      if Str.mem t ["challenge"; "push"; "fetch"] then
        match JSON.parse (Querystring.toString p) with
        | Some v =>
            Some {| wtype := t; wid := i;
                    wplugin := Querystring.get kv "plugin"; wpayload := v |}
        | None => None
        end
      else None
  | _, _, _ => None
  end.

Definition dispatch {runtime : Runtime} {application : Application}
    (m : WireMessage) : M unit :=
  if String.eqb (wtype m) "challenge" then _handleChallenge (wid m) (wpayload m)
  else if String.eqb (wtype m) "push" then emit (push (wplugin m) (wpayload m))
  else emit (fetch (wplugin m) (wpayload m) (_generateReplyFunction (wid m))).

(** The key supplied by the caller's [options], if any. *)
Definition supplied {A} (options : option Overrides) (key : Overrides -> option A)
  : option A :=
  match options with
  | Some o => key o
  | None => None
  end.

(** ** Reading a trace *)

Definition isDisconnected (a : action) : bool :=
  match a with
  | Emit (disconnected _ _) => true
  | _ => false
  end.

Definition isNewWebSocket (a : action) : bool :=
  match a with
  | NewWebSocket _ _ => true
  | _ => false
  end.

Definition isReconnectTimer (a : action) : bool :=
  match a with
  | SetTimeout _ reconnectCallback _ => true
  | _ => false
  end.

Definition count (f : action -> bool) (t : list action) : nat :=
  List.length (filter f t).

(** ** A runtime for the examples

    No RSA here: a ciphertext made for key [k] is [k] followed by the
    plaintext, and the base64 step is the identity on strings.  No URL
    parser either: for the base [ADDRESS] and a path of letters, digits,
    [-], [_] and [~], the URL is the base followed by the path, as the
    parser gives it; the example knows no other input. *)

Definition plainChar (c : ascii) : bool :=
  let n := N_of_ascii c in
  (((65 <=? n) && (n <=? 90)) || ((97 <=? n) && (n <=? 122))
   || ((48 <=? n) && (n <=? 57))
   || (n =? 45) || (n =? 95) || (n =? 126))%N.

Fixpoint plain (s : string) : bool :=
  match s with
  | EmptyString => true
  | String c r => plainChar c && plain r
  end.

#[export] Instance exampleRuntime : Runtime := {|
  Buffer_from := fun v => match v with Some (JStr s) => Some s | _ => None end;
  privateDecrypt := fun key buf =>
    if String.prefix key buf then Some (JSON.drop (String.length key) buf)
    else None;
  URL := fun input base =>
    match input with
    | String c path =>
        if Ascii.eqb c "/" && String.eqb base ADDRESS && plain path
        then Some (base ++ input)
        else None
    | EmptyString => None
    end;
  Buffer_from_undefined := eq_refl
|}.

(** The instance [new Protocol("client", "KEY")] of the examples. *)
Definition exampleProtocol : Protocol :=
  {| clientId := "client";
     _privateKey := "KEY";
     _options := {| reconnect := true; ignoreErrors := true;
                    reconnectDelay := 2000 |};
     _socket := None;
     _reconnectTimeout := None;
     _pingTimeout := None;
     _disconnectEmitted := false |}.

(** The example instance, connected and open on handle 0. *)
Definition exampleOpen : World :=
  fst (run [AppConnect; SockOpen 0] (initial exampleProtocol)).

(** ** Frames as a peer builds them

    [frame fields]: the wire string of a message whose properties are the
    string fields [fields], in that order ([querystring.stringify] of
    such an object).  [field fields k]: the value of the field [k]. *)




(** One round of the loop of [Querystring.parse]: a segment is added to
    the object built so far. *)
Definition parseStep (o : qsobject) (seg : string) : qsobject :=
  if String.eqb seg "" then o
  else let (k, v) := Str.cut "=" seg in
       Querystring.addKeyValue o (Querystring.unescape k)
         (Querystring.unescape (match v with Some v => v | None => "" end)).





(** What the read [payload.challenge] gives on a payload that is not
    [null]. *)
Definition challengeOf (payload : json) : option json :=
  match payload with
  | JObj l => JSON.lookup l "challenge"
  | _ => None
  end.

(** ** Reading a trace and a run, continued *)

Definition isError (a : action) : bool :=
  match a with
  | Emit (error _) => true
  | _ => false
  end.

(** A frame handed to the transport reads back with type reply (any
    other action passes). *)
Definition isReplyFrame (a : action) : bool :=
  match a with
  | Send _ data =>
      match Querystring.get (Querystring.parse data) "type" with
      | Some (QStr t) => String.eqb t "reply"
      | _ => false
      end
  | _ => true
  end.

Definition isAppConnect (i : input) : bool :=
  match i with
  | AppConnect => true
  | _ => false
  end.

(** [connects w i]: the turn [i] runs [connect] in [w]: the application
    calls it, or the reconnect timer fires. *)
Definition connects (w : World) (i : input) : bool :=
  match i with
  | AppConnect => true
  | TimerFired t =>
      match findTimer w t with
      | Some x =>
          match tcallback x with
          | reconnectCallback => true
          | pingCallback => false
          end
      | None => false
      end
  | _ => false
  end.

(** ** The timers and the listeners of a reachable world *)

Definition reconnectTimer (w : World) (t : timer) : Timeout :=
  {| tid := t; tcallback := reconnectCallback;
     tdelay := reconnectDelay (_options (this w)) |}.

Definition pingTimer (t : timer) : Timeout :=
  {| tid := t; tcallback := pingCallback; tdelay := 30000 |}.

(** The pending timers are the ones [_reconnectTimeout] and
    [_pingTimeout] name, and no others. *)
Definition timersKept (w : World) : Prop :=
  match _reconnectTimeout (this w), _pingTimeout (this w) with
  | None, None => timers w = []
  | Some r, None => timers w = [reconnectTimer w r] /\ r < nextTimer w
  | None, Some p => timers w = [pingTimer p] /\ p < nextTimer w
  | Some r, Some p =>
      (timers w = [reconnectTimer w r; pingTimer p]
       \/ timers w = [pingTimer p; reconnectTimer w r])
      /\ r <> p /\ r < nextTimer w /\ p < nextTimer w
  end.

(** Reconnection is disabled and no reconnect timer is pending. *)
Definition quiet (w : World) : Prop :=
  reconnect (_options (this w)) = false
  /\ _reconnectTimeout (this w) = None
  /\ timersKept w.

(** The close listener of every handle that is not closed is still
    attached. *)
Definition attached (w : World) : Prop :=
  Forall (fun x => readyState x <> CLOSED -> onceClose x = true) (sockets w).

(* ================================================================== *)
(** * Part II. Theorems                                                *)
(* ================================================================== *)

(** ** Construction *)

(** C9 (as amended).  The constructor throws the argument error exactly
    when the client id or the private key is absent.  Otherwise: with no
    [options] argument the instance holds the defaults reconnect = true,
    ignoreErrors = true, reconnectDelay = 2000; with a plain object,
    each option is the caller's value when the object supplies the key
    and the default when it does not; with [null] or any other value
    that is not a plain object, the merge throws a TypeError and no
    instance is built.  An instance that is built holds the client id
    and the key, no handle, no timer and a clear guard flag. *)
Theorem constructor_options :
  forall (c k : option string) (options : argument),
    (constructor c k options = Throw (Error "Missing arguments")
     <-> (c = None \/ k = None))
    /\ (forall c' k' : string,
          c = Some c' -> k = Some k' ->
          match options with
          | Undefined =>
              constructor c k options = Normal (initialize c' k' None)
              /\ _options (initialize c' k' None)
                 = {| reconnect := true; ignoreErrors := true;
                      reconnectDelay := 2000 |}
          | PlainObject o =>
              constructor c k options = Normal (initialize c' k' (Some o))
              /\ reconnect (_options (initialize c' k' (Some o)))
                 = match given_reconnect o with Some b => b | None => true end
              /\ ignoreErrors (_options (initialize c' k' (Some o)))
                 = match given_ignoreErrors o with Some b => b | None => true end
              /\ reconnectDelay (_options (initialize c' k' (Some o)))
                 = match given_reconnectDelay o with
                   | Some d => d
                   | None => 2000%Z
                   end
          | Null | Other _ =>
              exists m : string, constructor c k options = Throw (TypeError m)
          end)
    /\ (forall (c' k' : string) (o : option Overrides),
          clientId (initialize c' k' o) = c'
          /\ _privateKey (initialize c' k' o) = k'
          /\ _socket (initialize c' k' o) = None
          /\ _reconnectTimeout (initialize c' k' o) = None
          /\ _pingTimeout (initialize c' k' o) = None
          /\ _disconnectEmitted (initialize c' k' o) = false).
Proof.
  intros c k options. split; [split|split].
  - destruct c, k; simpl; intro E; auto.
    destruct options; simpl in E; discriminate E.
  - intros [-> | ->]; [reflexivity | destruct c; reflexivity].
  - intros c' k' -> ->.
    destruct options as [| |[[r|] [e|] [d|]]|text]; simpl; eauto.
  - intros c' k' o. repeat split.
Qed.

Lemma constructor_options_witness :
  constructor (Some "client") (Some "KEY")
    (PlainObject {| given_reconnect := None;
                    given_ignoreErrors := Some false;
                    given_reconnectDelay := Some 500%Z |})
  = Normal {| clientId := "client"; _privateKey := "KEY";
              _options := {| reconnect := true; ignoreErrors := false;
                             reconnectDelay := 500 |};
              _socket := None; _reconnectTimeout := None;
              _pingTimeout := None; _disconnectEmitted := false |}.
Proof.
  destruct (constructor_options (Some "client") (Some "KEY")
              (PlainObject {| given_reconnect := None;
                              given_ignoreErrors := Some false;
                              given_reconnectDelay := Some 500%Z |}))
    as (_ & H & _).
  destruct (H "client" "KEY" eq_refl eq_refl) as (E & _). exact E.
Defined.

(** C9, the counterexample.  The client id and the key are present and
    [options] is [null]: the constructor throws, and what it throws is
    the TypeError of the merge, not the argument error; no options
    snapshot is produced. *)
Lemma null_options_are_refused :
  constructor (Some "client") (Some "KEY") Null
  = Throw (TypeError "`null` is not an Option Object")
  /\ (forall p : Protocol,
        constructor (Some "client") (Some "KEY") Null <> Normal p).
Proof. split; [reflexivity|discriminate]. Qed.

(** ** Dispatch of inbound frames *)

Lemma mem_inbound (t : string) :
  Str.mem t ["push"; "fetch"; "challenge"] = Str.mem t ["challenge"; "push"; "fetch"].
Proof.
  simpl. destruct (String.eqb t "push"), (String.eqb t "fetch"),
    (String.eqb t "challenge"); reflexivity.
Qed.

Lemma mem_inbound_cases (t : string) :
  Str.mem t ["challenge"; "push"; "fetch"] = true ->
  t = "challenge" \/ t = "push" \/ t = "fetch".
Proof.
  simpl. intro H.
  destruct (String.eqb_spec t "challenge"); auto.
  destruct (String.eqb_spec t "push"); auto.
  destruct (String.eqb_spec t "fetch"); auto.
  discriminate H.
Qed.

(** [processMessage] is [Decode] followed by [dispatch]; an absent
    message is dropped. *)
Lemma processMessage_Decode {runtime : Runtime} {application : Application}
    (message : string) (w : World) :
  processMessage message w
  = match Decode message with
    | Some m => dispatch m w
    | None => (Normal tt, w, [])
    end.
Proof.
  unfold processMessage, Decode. cbv zeta.
  generalize (Querystring.get (Querystring.parse message) "plugin").
  generalize (Querystring.get (Querystring.parse message) "payload").
  generalize (Querystring.get (Querystring.parse message) "id").
  generalize (Querystring.get (Querystring.parse message) "type").
  intros [[t|l]|] [i|] [p|] plugin; try reflexivity.
  unfold includes. rewrite mem_inbound.
  destruct (Str.mem t ["challenge"; "push"; "fetch"]) eqn:Ht; [|reflexivity].
  simpl negb. cbv iota.
  destruct (JSON.parse (Querystring.toString p)) as [v|]; [|reflexivity].
  unfold dispatch; simpl.
  destruct (mem_inbound_cases _ Ht) as [-> | [-> | ->]]; reflexivity.
Qed.

(** [Decode] is absent exactly in the cases the specification lists. *)
Lemma Decode_absent (message : string) :
  let o := Querystring.parse message in
  Decode message = None <->
  (Querystring.get o "type" = None \/ Querystring.get o "id" = None
   \/ Querystring.get o "payload" = None
   \/ (exists t, Querystring.get o "type" = Some t
                 /\ includes ["challenge"; "push"; "fetch"] t = false)
   \/ (exists p, Querystring.get o "payload" = Some p
                 /\ JSON.parse (Querystring.toString p) = None)).
Proof.
  unfold Decode. cbv zeta.
  generalize (Querystring.get (Querystring.parse message) "plugin").
  generalize (Querystring.get (Querystring.parse message) "payload").
  generalize (Querystring.get (Querystring.parse message) "id").
  generalize (Querystring.get (Querystring.parse message) "type").
  intros [t|] [i|] [p|] plugin; try (split; [auto | destruct t; auto]; fail);
    try (split; auto; fail).
  destruct t as [t|l].
  - unfold includes.
    destruct (Str.mem t ["challenge"; "push"; "fetch"]) eqn:Ht.
    + destruct (JSON.parse (Querystring.toString p)) as [v|] eqn:Hp.
      * split; [discriminate|].
        intros [H|[H|[H|[(t' & H & H')|(p' & H & H')]]]]; try discriminate H.
        -- injection H as <-. unfold includes in H'. congruence.
        -- injection H as <-. congruence.
      * split; auto. intros _. right; right; right; right. eauto.
    + split; auto. intros _. right; right; right; left.
      exists (QStr t). auto.
  - split; auto. intros _. right; right; right; left.
    exists (QArr l). auto.
Qed.

(** C4.  A frame in which [type], [id] or [payload] is missing, or whose
    type is not one of challenge, push, fetch, or whose payload is not
    valid JSON, is dropped: [processMessage] returns normally, emits
    nothing, calls nothing on the transport or the timers, and leaves
    the whole world (instance fields, handles, timers) as it was. *)
Theorem processMessage_drops_malformed {runtime : Runtime} :
  forall (message : string) (w : World),
    let o := Querystring.parse message in
    (Querystring.get o "type" = None \/ Querystring.get o "id" = None
     \/ Querystring.get o "payload" = None
     \/ (exists t, Querystring.get o "type" = Some t
                   /\ includes ["challenge"; "push"; "fetch"] t = false)
     \/ (exists p, Querystring.get o "payload" = Some p
                   /\ JSON.parse (Querystring.toString p) = None)) ->
    processMessage message w = (Normal tt, w, []).
Proof.
  intros message w o H.
  rewrite processMessage_Decode.
  apply (proj2 (Decode_absent message)) in H. rewrite H. reflexivity.
Qed.

Lemma processMessage_drops_malformed_witness :
  processMessage "type=reply&id=9&payload=%7B%7D" exampleOpen
  = (Normal tt, exampleOpen, []).
Proof.
  apply (@processMessage_drops_malformed exampleRuntime).
  right; right; right; left. exists (QStr "reply"). split; reflexivity.
Defined.

(** ** Unfolding the methods *)

Ltac unfold_monad :=
  unfold bind, ret, throw, getThis, setThis, tell, emit, withSockets,
    socketReadyState, socketClose, socketSend, newWebSocket, setTimeout,
    clearTimeout in *.

Ltac unfold_methods :=
  unfold onMessage, onOpen, onClose, onUnexpectedResponse, onError, onPing,
    reconnectTimeoutCallback, pingTimeoutCallback, connect, openSocket,
    _reconnect, call, sendReply, sendError, transmit, markSocket,
    dispatch, _handleChallenge, property, _generateReplyFunction in *.

Ltac break_match :=
  repeat match goal with
    | H : ?x = _ |- context [match ?x with _ => _ end] => rewrite H; simpl
    | |- context [match ?x with _ => _ end] =>
        lazymatch x with
        | context [match _ with _ => _ end] => fail
        | _ => destruct x eqn:?; simpl
        end
    end.

Ltac run_methods :=
  repeat (progress unfold_methods); unfold_monad; simpl; break_match.

Lemma step_reconnect_false {runtime : Runtime} {application : Application}
    (i : input) (w : World) :
  reconnect (_options (this w)) = false ->
  reconnect (_options (this (fst (step i w)))) = false.
Proof.
  intros H. unfold step. destruct (enabled w i); [|exact H].
  destruct i; unfold deliver; try rewrite processMessage_Decode;
    run_methods; simpl; auto.
Qed.

(** ** Lists of handles *)

Lemma nth_error_update_eq {A} (l : list A) (i : nat) (f : A -> A) :
  nth_error (update l i f) i = option_map f (nth_error l i).
Proof.
  revert i. induction l as [|x l IH]; intros [|i]; simpl; auto.
Qed.

Lemma nth_error_update_ne {A} (l : list A) (i j : nat) (f : A -> A) :
  i <> j -> nth_error (update l i f) j = nth_error l j.
Proof.
  revert i j. induction l as [|x l IH]; intros [|i] [|j] H; simpl; auto;
    try contradiction.
Qed.

Lemma length_update {A} (l : list A) (i : nat) (f : A -> A) :
  List.length (update l i f) = List.length l.
Proof.
  revert i. induction l as [|x l IH]; intros [|i]; simpl; auto.
Qed.

(** ** Runs *)

Lemma run_cons_world {runtime : Runtime} {application : Application}
    (i : input) (r : list input) (w : World) :
  fst (run (i :: r) w) = fst (run r (fst (step i w))).
Proof.
  simpl. destruct (step i w) as [w1 t1]. simpl.
  destruct (run r w1) as [w2 t2]. reflexivity.
Qed.

Lemma run_cons_trace {runtime : Runtime} {application : Application}
    (i : input) (r : list input) (w : World) :
  snd (run (i :: r) w) = (snd (step i w) ++ snd (run r (fst (step i w))))%list.
Proof.
  simpl. destruct (step i w) as [w1 t1]. simpl.
  destruct (run r w1) as [w2 t2]. reflexivity.
Qed.

Lemma run_reconnect_false {runtime : Runtime} {application : Application}
    (inputs : list input) (w : World) :
  reconnect (_options (this w)) = false ->
  reconnect (_options (this (fst (run inputs w)))) = false.
Proof.
  revert w. induction inputs as [|i r IH]; intros w H.
  - exact H.
  - rewrite run_cons_world. apply IH. apply step_reconnect_false. exact H.
Qed.

(** With reconnection disabled a close event arms no timer. *)
Lemma close_without_reconnect {runtime : Runtime} {application : Application}
    (h : handle) (code : Z) (reason : string) (w : World) :
  reconnect (_options (this w)) = false ->
  count isReconnectTimer (snd (step (SockClose h code reason) w)) = 0
  /\ timers (fst (step (SockClose h code reason) w)) = timers w
  /\ _reconnectTimeout (this (fst (step (SockClose h code reason) w)))
     = _reconnectTimeout (this w).
Proof.
  intros H. unfold step. destruct (enabled w _); [|auto].
  unfold deliver. run_methods; simpl; auto; congruence.
Qed.

(** ** The handshake *)

(** The failure branch of [_handleChallenge], for any payload whose
    [challenge] property can be read, in an application that listens to
    the error event. *)
Lemma handshake_failure {runtime : Runtime} {application : Application}
    (message : string) (w : World) (id : qsvalue) (plugin : option qsvalue)
    (payload : json) (c : option json) (h : handle) :
  errorListener = true ->
  Decode message = Some {| wtype := "challenge"; wid := id;
                           wplugin := plugin; wpayload := payload |} ->
  property payload "challenge" w = (Normal c, w, []) ->
  decryptChallenge (_privateKey (this w)) c = None ->
  _socket (this w) = Some h ->
  stateOf w h <> CLOSED ->
  exists w1,
    processMessage message w
    = (Normal tt, w1,
       [Emit (error (Error
          "The provided private key failed to decrypt the challenge."));
        Close h])
    /\ stateOf w1 h = CLOSING
    /\ _socket (this w1) = None
    /\ (forall inputs : list input,
          reconnect (_options (this (fst (run inputs w1)))) = false)
    /\ (forall (inputs : list input) (code : Z) (reason : string),
          let w2 := fst (run inputs w1) in
          count isReconnectTimer (snd (step (SockClose h code reason) w2)) = 0
          /\ timers (fst (step (SockClose h code reason) w2)) = timers w2
          /\ _reconnectTimeout (this (fst (step (SockClose h code reason) w2)))
             = _reconnectTimeout (this w2)).
Proof.
  intros HL HD Hp Hd Hs Hr.
  rewrite processMessage_Decode, HD.
  unfold dispatch, _handleChallenge; simpl.
  unfold bind at 1. rewrite Hp.
  unfold_monad. rewrite Hd. simpl. rewrite HL. simpl. rewrite Hs.
  assert (Hc : ReadyState_eqb (stateOf w h) CLOSED = false)
    by (destruct (stateOf w h); [reflexivity .. | contradiction]).
  simpl. unfold stateOf at 1. simpl. fold (stateOf w h). rewrite Hc. simpl.
  eexists. split; [reflexivity|].
  assert (R : forall inputs : list input,
             reconnect (_options (this (fst (run inputs
               {| this := set_socket None (set_reconnect false (this w));
                  sockets := update (sockets w) h
                    (fun s => match readyState s with
                              | CLOSED => s
                              | _ => set_readyState CLOSING s
                              end);
                  timers := timers w; nextTimer := nextTimer w |})))) = false)
    by (intro inputs; apply run_reconnect_false; reflexivity).
  split; [|split; [reflexivity|split; [exact R|]]].
  - unfold stateOf in *. simpl. rewrite nth_error_update_eq.
    destruct (nth_error (sockets w) h) as [s|]; [|contradiction].
    simpl in *. destruct (readyState s); try reflexivity. contradiction.
  - intros inputs code reason. apply close_without_reconnect. apply R.
Qed.




(** A challenge payload that is an object without a [challenge] property
    takes the same failure branch: [Buffer.from(undefined)] throws inside
    the [try]. *)
Lemma challenge_field_absent {runtime : Runtime}
    (message : string) (w : World) (id : qsvalue) (plugin : option qsvalue)
    (l : list (string * json)) (h : handle) :
  Decode message = Some {| wtype := "challenge"; wid := id;
                           wplugin := plugin; wpayload := JObj l |} ->
  JSON.lookup l "challenge" = None ->
  _socket (this w) = Some h ->
  stateOf w h <> CLOSED ->
  exists w1,
    processMessage message w
    = (Normal tt, w1,
       [Emit (error (Error
          "The provided private key failed to decrypt the challenge."));
        Close h])
    /\ stateOf w1 h = CLOSING
    /\ _socket (this w1) = None
    /\ reconnect (_options (this w1)) = false.
Proof.
  intros HD Hl Hs Hr.
  assert (Hp : property (JObj l) "challenge" w = (Normal None, w, []))
    by (unfold property, ret; rewrite Hl; reflexivity).
  assert (Hd : decryptChallenge (_privateKey (this w)) None = None)
    by (unfold decryptChallenge; rewrite Buffer_from_undefined; reflexivity).
  destruct (handshake_failure (application := attentive) _ eq_refl HD Hp Hd Hs Hr)
    as (w1 & E & H1 & H2 & H3 & _).
  exists w1. repeat split; auto. apply (H3 []).
Qed.

(** C10.  The failing input: a challenge frame whose payload is the JSON
    value [null].  The property read [payload.challenge] stands before
    the [try]: [processMessage] throws a TypeError; no error event is
    emitted, [reconnect] stays enabled and the handle is not closed. *)
Theorem null_challenge_payload_throws :
  Decode "type=challenge&id=7&payload=null"
  = Some {| wtype := "challenge"; wid := QStr "7"; wplugin := None;
            wpayload := JNull |}
  /\ processMessage "type=challenge&id=7&payload=null" exampleOpen
     = (Throw (TypeError "Cannot read properties of null"), exampleOpen, [])
  /\ reconnect (_options (this exampleOpen)) = true
  /\ stateOf exampleOpen 0 = OPEN.
Proof. repeat split. Qed.

(** ** The fetch reply function *)

(** The reply function sends a reply frame whatever [err] is. *)
Lemma reply_function_sends_reply (id : qsvalue) (err : option exception)
    (response : option json) (w : World) (h : handle) :
  _socket (this w) = Some h ->
  call (_generateReplyFunction id) err response w
  = (Normal Pending, w, [Send h (encodeMessage "reply" id response)]).
Proof.
  intros Hs. unfold _generateReplyFunction, call, sendReply, transmit.
  unfold_monad. rewrite Hs. reflexivity.
Qed.

(** C1.  The failing input: the reply function of the fetch message with
    id 7, called with [(Error("boom"), undefined)].  It sends the reply
    frame with an empty payload; the error frame, which [sendError]
    builds, is never sent. *)
Theorem reply_function_ignores_error :
  snd (step (SockMessage 0 "type=fetch&id=7&plugin=gh&payload=%7B%22x%22%3A1%7D")
         exampleOpen)
  = [Emit (fetch (Some (QStr "gh")) (JObj [("x", JNum 1)])
             (ReplyFunction (QStr "7")))]
  /\ call (ReplyFunction (QStr "7")) (Some (Error "boom")) None exampleOpen
     = (Normal Pending, exampleOpen, [Send 0 "type=reply&id=7&payload="])
  /\ sendError (QStr "7") (Error "boom") exampleOpen
     = (Normal Pending, exampleOpen,
        [Send 0 "type=error&id=7&payload=%7B%22message%22%3A%22boom%22%7D"]).
Proof. repeat split. Qed.

(** ** The disconnect guard *)


Lemma count_app (f : action -> bool) (a b : list action) :
  count f (a ++ b) = count f a + count f b.
Proof.
  unfold count. rewrite filter_app, length_app. reflexivity.
Qed.






(** ** The liveness watchdog *)

Lemma findTimer_fresh (l : list Timeout) (t : timer) (x : Timeout) :
  Forall (fun y => tid y < t) l ->
  tid x = t ->
  find (fun y => Nat.eqb (tid y) t) (l ++ [x]) = Some x.
Proof.
  intros F E. induction F as [|y l Hy F IH]; simpl.
  - rewrite E, Nat.eqb_refl. reflexivity.
  - destruct (Nat.eqb_spec (tid y) t) as [E'|_]; [lia|exact IH].
Qed.

Lemma removeTimer_below (l : list Timeout) (t0 t : timer) :
  Forall (fun y => tid y < t) l ->
  Forall (fun y => tid y < t) (removeTimer t0 l).
Proof.
  intros F. unfold removeTimer. apply Forall_forall. intros y Hy.
  apply filter_In in Hy. destruct Hy as [Hy _].
  exact (proj1 (Forall_forall _ _) F y Hy).
Qed.

Lemma timers_added (l : list Timeout) (n : timer) (cb : callback) (d : Z) :
  Forall (fun x => tid x < n) l ->
  Forall (fun x => tid x < S n)
    (l ++ [{| tid := n; tcallback := cb; tdelay := d |}]).
Proof.
  intros F. apply Forall_app. split.
  - eapply Forall_impl; [|exact F]. simpl. intros x H. lia.
  - constructor; [simpl; lia|constructor].
Qed.

Lemma step_wellTimed {runtime : Runtime} (i : input) (w : World) :
  wellTimed w -> wellTimed (fst (step i w)).
Proof.
  intros T. unfold step. destruct (enabled w i); [|exact T].
  unfold wellTimed in *.
  destruct i; unfold deliver; try rewrite processMessage_Decode;
    run_methods; simpl; auto;
    repeat first [apply timers_added | apply removeTimer_below]; auto.
Qed.

Lemma run_wellTimed {runtime : Runtime} (inputs : list input) (w : World) :
  wellTimed w -> wellTimed (fst (run inputs w)).
Proof.
  revert w. induction inputs as [|i r IH]; intros w T.
  - exact T.
  - rewrite run_cons_world. apply IH. apply step_wellTimed. exact T.
Qed.

(** Every world reached from a constructed instance has fresh timers. *)
Lemma reachable_wellTimed {runtime : Runtime} (c k : string)
    (o : option Overrides) (inputs : list input) :
  wellTimed (fst (run inputs (initial (initialize c k o)))).
Proof. apply run_wellTimed. constructor. Qed.

(** The expiry of a liveness timer, in any world where one is pending. *)
Lemma ping_timeout_fires {runtime : Runtime} (w : World) (t : timer) (x : Timeout) :
  findTimer w t = Some x ->
  tcallback x = pingCallback ->
  snd (step (TimerFired t) w)
  = Emit (disconnected 0 "Ping timeout")
    :: (if reconnect (_options (this w)) then
          match _reconnectTimeout (this w) with
          | None => [SetTimeout (nextTimer w) reconnectCallback
                       (reconnectDelay (_options (this w)))]
          | Some _ => []
          end
        else [])
  /\ _pingTimeout (this (fst (step (TimerFired t) w))) = None
  /\ (reconnect (_options (this w)) = true ->
      _reconnectTimeout (this (fst (step (TimerFired t) w))) <> None)
  /\ (reconnect (_options (this w)) = false ->
      _reconnectTimeout (this (fst (step (TimerFired t) w)))
      = _reconnectTimeout (this w)).
Proof.
  intros F C. unfold step, enabled, deliver. rewrite F, C.
  run_methods; simpl; repeat split; auto; congruence.
Qed.

(** An open event arms no timer and clears none. *)
Lemma open_arms_no_timer {runtime : Runtime} (w : World) (h : handle) :
  timers (fst (step (SockOpen h) w)) = timers w
  /\ nextTimer (fst (step (SockOpen h) w)) = nextTimer w
  /\ _pingTimeout (this (fst (step (SockOpen h) w))) = _pingTimeout (this w)
  /\ (forall (t : timer) (cb : callback) (d : Z),
        ~ In (SetTimeout t cb d) (snd (step (SockOpen h) w))).
Proof.
  unfold step. destruct (enabled w (SockOpen h)).
  - simpl. repeat split. intros t cb d [E|[]]. discriminate E.
  - simpl. repeat split. intros t cb d [].
Qed.

(** C3 (as amended).  The liveness timer is armed by a ping, not by the
    open event: an open event arms no timer.  A ping clears the pending
    liveness timer, if any, and arms a new one of 30000 ms, which the
    instance remembers.  When that timer fires, the engine emits, in
    that turn, exactly one [disconnected] event, with code 0 and reason
    "Ping timeout", forgets the timer, and, if [reconnect] is enabled,
    arms the reconnect timer unless one is pending already. *)
Theorem liveness_timeout_after_ping {runtime : Runtime} :
  forall (w : World) (h : handle) (w2 : World),
    wellTimed w ->
    enabled w (SockPing h) = true ->
    let t := nextTimer w in
    let armed := {| tid := t; tcallback := pingCallback; tdelay := 30000 |} in
    (snd (step (SockPing h) w)
     = (match _pingTimeout (this w) with
        | Some t0 => [ClearTimeout t0]
        | None => []
        end ++ [SetTimeout t pingCallback 30000])%list
     /\ _pingTimeout (this (fst (step (SockPing h) w))) = Some t
     /\ findTimer (fst (step (SockPing h) w)) t = Some armed)
    /\ (findTimer w2 t = Some armed ->
        snd (step (TimerFired t) w2)
        = Emit (disconnected 0 "Ping timeout")
          :: (if reconnect (_options (this w2)) then
                match _reconnectTimeout (this w2) with
                | None => [SetTimeout (nextTimer w2) reconnectCallback
                             (reconnectDelay (_options (this w2)))]
                | Some _ => []
                end
              else [])
        /\ count isDisconnected (snd (step (TimerFired t) w2)) = 1
        /\ _pingTimeout (this (fst (step (TimerFired t) w2))) = None
        /\ (reconnect (_options (this w2)) = true ->
            _reconnectTimeout (this (fst (step (TimerFired t) w2))) <> None)
        /\ (reconnect (_options (this w2)) = false ->
            _reconnectTimeout (this (fst (step (TimerFired t) w2)))
            = _reconnectTimeout (this w2)))
    /\ (forall (w0 : World) (h0 : handle),
          timers (fst (step (SockOpen h0) w0)) = timers w0
          /\ nextTimer (fst (step (SockOpen h0) w0)) = nextTimer w0
          /\ _pingTimeout (this (fst (step (SockOpen h0) w0)))
             = _pingTimeout (this w0)
          /\ (forall (t0 : timer) (cb : callback) (d : Z),
                ~ In (SetTimeout t0 cb d) (snd (step (SockOpen h0) w0)))).
Proof.
  intros w h w2 WT E t armed. split; [|split].
  - unfold step. rewrite E. unfold deliver, onPing. unfold_monad. simpl.
    unfold findTimer.
    destruct (_pingTimeout (this w)) as [t0|]; simpl;
      (split; [reflexivity|split; [reflexivity|]]).
    + apply findTimer_fresh; [|reflexivity].
      apply removeTimer_below. exact WT.
    + apply findTimer_fresh; [exact WT|reflexivity].
  - intros F.
    destruct (ping_timeout_fires w2 t F eq_refl) as (T & P & R1 & R2).
    repeat split; auto.
    rewrite T. simpl.
    destruct (reconnect (_options (this w2))); [|reflexivity].
    destruct (_reconnectTimeout (this w2)); reflexivity.
  - intros w0 h0. apply open_arms_no_timer.
Qed.

Lemma liveness_timeout_after_ping_witness :
  (snd (step (SockPing 0) exampleOpen) = [SetTimeout 0 pingCallback 30000]
   /\ _pingTimeout (this (fst (step (SockPing 0) exampleOpen))) = Some 0
   /\ findTimer (fst (step (SockPing 0) exampleOpen)) 0
      = Some {| tid := 0; tcallback := pingCallback; tdelay := 30000 |})
  /\ snd (step (TimerFired 0) (fst (step (SockPing 0) exampleOpen)))
     = [Emit (disconnected 0 "Ping timeout");
        SetTimeout 1 reconnectCallback 2000].
Proof.
  destruct (@liveness_timeout_after_ping exampleRuntime exampleOpen 0
              (fst (step (SockPing 0) exampleOpen)))
    as (A & B & _); [constructor | reflexivity |].
  split; [exact A|].
  destruct (B eq_refl) as [T _]. exact T.
Defined.

(** C3, the counterexample.  After [connect] and the open event, with no
    ping received, no timer is pending: however long the engine waits,
    no timer can fire and nothing is emitted. *)
Lemma no_liveness_timer_after_open :
  timers exampleOpen = []
  /\ _pingTimeout (this exampleOpen) = None
  /\ (forall ts : list timer,
        run (map TimerFired ts) exampleOpen = (exampleOpen, [])).
Proof.
  split; [reflexivity|split; [reflexivity|]].
  induction ts as [|t ts IH]; [reflexivity|].
  simpl map.
  rewrite (surjective_pairing (run (TimerFired t :: map TimerFired ts) exampleOpen)).
  rewrite run_cons_world, run_cons_trace.
  change (step (TimerFired t) exampleOpen) with (exampleOpen, @nil action).
  simpl fst. simpl snd. rewrite IH. reflexivity.
Qed.

(** ** One transport handle at a time *)

Lemma othersIn_update (P : ReadyState -> Prop) (s : option handle)
    (l : list WebSocket) (h : handle) (f : WebSocket -> WebSocket) :
  othersIn P s l ->
  (forall x, P (readyState x) -> P (readyState (f x))) ->
  othersIn P s (update l h f).
Proof.
  intros [T1 T2] F. split.
  - intros h' E. rewrite length_update. auto.
  - intros h' x N D. destruct (Nat.eq_dec h h') as [<-|Hne].
    + rewrite nth_error_update_eq in N.
      destruct (nth_error l h) as [y|] eqn:Ey; [|discriminate].
      injection N as <-. eauto.
    + rewrite nth_error_update_ne in N by exact Hne. eauto.
Qed.

Lemma othersIn_open (P : ReadyState -> Prop) (s : option handle)
    (l : list WebSocket) (h : handle) (x : WebSocket) :
  ~ P CONNECTING ->
  othersIn P s l ->
  nth_error l h = Some x -> readyState x = CONNECTING ->
  othersIn P s (update l h (set_readyState OPEN)).
Proof.
  intros NP [T1 T2] N C. split.
  - intros h' E. rewrite length_update. auto.
  - intros h' y N' D. destruct (Nat.eq_dec h h') as [<-|Hne].
    + exfalso. apply NP. rewrite <- C. eauto.
    + rewrite nth_error_update_ne in N' by exact Hne. eauto.
Qed.

Lemma othersIn_new (P : ReadyState -> Prop) (s : option handle)
    (l : list WebSocket) (x : WebSocket) :
  P CLOSED ->
  othersIn P s l ->
  (forall h y, s = Some h -> nth_error l h = Some y -> readyState y = CLOSED) ->
  othersIn P (Some (List.length l)) (l ++ [x]).
Proof.
  intros PC [T1 T2] C. split.
  - intros h E. injection E as <-. rewrite length_app. simpl. lia.
  - intros h y N D.
    destruct (Nat.lt_ge_cases h (List.length l)) as [Hlt|Hge].
    + rewrite nth_error_app1 in N by exact Hlt.
      destruct s as [h0|].
      * destruct (Nat.eq_dec h0 h) as [->|Hne].
        -- rewrite (C h y eq_refl N). exact PC.
        -- apply (T2 h y N). congruence.
      * apply (T2 h y N). discriminate.
    + rewrite nth_error_app2 in N by exact Hge.
      destruct (h - List.length l) as [|n] eqn:En.
      * exfalso. apply D. f_equal. lia.
      * simpl in N. destruct n; discriminate N.
Qed.

Lemma othersIn_drop (P : ReadyState -> Prop) (h : handle) (l : list WebSocket) :
  othersIn P (Some h) l ->
  (forall y, nth_error l h = Some y -> P (readyState y)) ->
  othersIn P None l.
Proof.
  intros [T1 T2] C. split.
  - discriminate.
  - intros h' y N _. destruct (Nat.eq_dec h h') as [<-|Hne]; auto.
    apply (T2 h' y N). congruence.
Qed.

Lemma option_eq_dec_handle (a b : option handle) : {a = b} + {a <> b}.
Proof. decide equality. apply Nat.eq_dec. Qed.

Lemma stateOf_eqb (w : World) (h : handle) (r : ReadyState) :
  ReadyState_eqb (stateOf w h) r = true -> stateOf w h = r.
Proof. destruct (stateOf w h), r; simpl; congruence. Qed.

Lemma closingOrClosed_kept (f : WebSocket -> WebSocket) :
  (forall x, readyState (f x) = readyState x
             \/ readyState (f x) = CLOSING \/ readyState (f x) = CLOSED) ->
  forall x, closingOrClosed (readyState x) -> closingOrClosed (readyState (f x)).
Proof.
  intros F x H. unfold closingOrClosed in *.
  destruct (F x) as [-> | H']; auto.
Qed.

Lemma closed_kept (f : WebSocket -> WebSocket) :
  (forall x, readyState x = CLOSED -> readyState (f x) = CLOSED) ->
  forall x, closed (readyState x) -> closed (readyState (f x)).
Proof. intros F x H. apply F. exact H. Qed.

(** The goals the methods leave, for either invariant. *)
Ltac handles_update T :=
  repeat (apply othersIn_update;
          [ | first
                [ apply closingOrClosed_kept;
                  let R := fresh "R" in
                  intros x; simpl; destruct (readyState x) eqn:R; simpl; auto
                | apply closed_kept;
                  let R := fresh "R" in
                  intros x R; simpl; try rewrite R; simpl; auto ] ]);
  try exact T.

Ltac handles_step T :=
  repeat match goal with
    | H : _socket _ = _ |- context [_socket _] => rewrite H
    end;
  try exact T;
  match goal with
  | |- othersIn closingOrClosed None (update _ _ _) =>
      eapply othersIn_drop;
      [ handles_update T
      | intros y N; rewrite nth_error_update_eq in N;
        match type of N with
        | option_map _ ?o = _ =>
            let z := fresh "z" in
            let R := fresh "R" in
            destruct o as [z|]; [|discriminate N];
            injection N as <-; unfold closingOrClosed;
            destruct (readyState z) eqn:R; simpl; auto
        end ]
  | |- othersIn _ _ (update _ _ _) => handles_update T
  | |- othersIn _ (Some _) (_ ++ _)%list =>
      eapply othersIn_new;
      [ first [ right; reflexivity | reflexivity ]
      | exact T
      | try discriminate;
        intros h' y' E' N'; injection E' as <-;
        match goal with
        | H : ReadyState_eqb (stateOf _ _) CLOSED = true |- _ =>
            apply stateOf_eqb in H; unfold stateOf in H; simpl in H;
            rewrite N' in H; exact H
        end ]
  | H : ReadyState_eqb (stateOf _ ?h) CLOSED = true |- othersIn _ None _ =>
      eapply othersIn_drop;
      [ exact T
      | intros y N; apply stateOf_eqb in H; unfold stateOf in H;
        simpl in H; rewrite N in H;
        first [ right; exact H | exact H ] ]
  end.

Lemma step_tidy {runtime : Runtime} (i : input) (w : World) :
  tidy w -> tidy (fst (step i w)).
Proof.
  intros T. unfold step. destruct (enabled w i) eqn:E; [|exact T].
  unfold tidy in *.
  destruct i; unfold deliver; try rewrite processMessage_Decode;
    unfold enabled in E;
    run_methods; simpl; auto; try (handles_step T; fail).
  apply andb_prop in E. destruct E as [_ E].
  apply stateOf_eqb in E. unfold stateOf in E.
  destruct (nth_error (sockets w) h) as [z|] eqn:N; [|discriminate E].
  eapply othersIn_open; eauto.
  intros [H|H]; discriminate H.
Qed.

Lemma step_strict {runtime : Runtime} (i : input) (w : World) :
  strict w ->
  count isHandshakeFailure (snd (step i w)) = 0 ->
  strict (fst (step i w)).
Proof.
  intros T. unfold step. destruct (enabled w i) eqn:E; [|intros _; exact T].
  unfold strict in *.
  destruct i; unfold deliver; try rewrite processMessage_Decode;
    unfold enabled in E;
    run_methods; simpl; intros F; auto; try discriminate F;
    try (handles_step T; fail).
  apply andb_prop in E. destruct E as [_ E].
  apply stateOf_eqb in E. unfold stateOf in E.
  destruct (nth_error (sockets w) h) as [z|] eqn:N; [|discriminate E].
  eapply othersIn_open; eauto.
  intros H; discriminate H.
Qed.

Lemma run_tidy {runtime : Runtime} (inputs : list input) (w : World) :
  tidy w -> tidy (fst (run inputs w)).
Proof.
  revert w. induction inputs as [|i r IH]; intros w T.
  - exact T.
  - rewrite run_cons_world. apply IH. apply step_tidy. exact T.
Qed.

Lemma run_strict {runtime : Runtime} (inputs : list input) (w : World) :
  strict w ->
  count isHandshakeFailure (snd (run inputs w)) = 0 ->
  strict (fst (run inputs w)).
Proof.
  revert w. induction inputs as [|i r IH]; intros w T F.
  - exact T.
  - rewrite run_cons_trace, count_app in F.
    rewrite run_cons_world. apply IH; [apply step_strict; [exact T|]|]; lia.
Qed.

Lemma initial_handles (P : ReadyState -> Prop) (c k : string)
    (o : option Overrides) :
  othersIn P (_socket (this (initial (initialize c k o))))
    (sockets (initial (initialize c k o))).
Proof.
  split.
  - discriminate.
  - intros [|h] x N; discriminate N.
Qed.

(** In a tidy world a connecting or open handle is the held one. *)
Lemma active_is_held (w : World) (h : handle) :
  tidy w -> active w h = true -> _socket (this w) = Some h.
Proof.
  intros [T1 T2] A. unfold active in A. apply andb_prop in A.
  destruct A as [_ A]. unfold stateOf in A.
  destruct (nth_error (sockets w) h) as [x|] eqn:N; [|discriminate A].
  destruct (option_eq_dec_handle (_socket (this w)) (Some h)) as [E|D];
    [exact E|].
  destruct (T2 h x N D) as [R|R]; rewrite R in A; discriminate A.
Qed.

Lemma connect_closes_held {runtime : Runtime} (w : World) (h : handle) :
  _socket (this w) = Some h ->
  stateOf w h <> CLOSED ->
  exists w1,
    connect w
    = (Normal tt, w1,
       (match _pingTimeout (this w) with
        | Some t => [ClearTimeout t]
        | None => []
        end ++ [Close h])%list)
    /\ _socket (this w1) = Some h
    /\ List.length (sockets w1) = List.length (sockets w)
    /\ stateOf w1 h = CLOSING.
Proof.
  intros Hs Hr.
  assert (Hc : ReadyState_eqb (stateOf w h) CLOSED = false)
    by (destruct (stateOf w h); [reflexivity .. | contradiction]).
  assert (Hx : forall l : list WebSocket,
             match nth_error l h with Some s => readyState s | None => CLOSED end
             <> CLOSED ->
             match nth_error (update l h (fun s =>
                     match readyState s with
                     | CLOSED => s
                     | _ => set_readyState CLOSING s
                     end)) h with
             | Some s => readyState s
             | None => CLOSED
             end = CLOSING).
  { intros l H. rewrite nth_error_update_eq.
    destruct (nth_error l h) as [s|]; [|contradiction].
    simpl in *. destruct (readyState s); try reflexivity. contradiction. }
  unfold connect. unfold_monad.
  destruct (_pingTimeout (this w)) as [t|]; simpl; rewrite Hs; simpl;
    unfold stateOf at 1; simpl; fold (stateOf w h); rewrite Hc; simpl;
    (eexists; split; [reflexivity|]); simpl;
    (split; [exact Hs|split; [apply length_update|]]);
    unfold stateOf; simpl; apply Hx; exact Hr.
Qed.

Lemma connect_opens_only_when_free {runtime : Runtime} (w : World) :
  count isNewWebSocket (snd (connect w)) <> 0 ->
  _socket (this w) = None
  \/ exists h, _socket (this w) = Some h /\ stateOf w h = CLOSED.
Proof.
  unfold connect. unfold_monad. unfold openSocket. unfold_monad.
  destruct (_pingTimeout (this w)) as [t|]; simpl;
    (destruct (_socket (this w)) as [h|]; [|auto]); simpl;
    unfold stateOf at 1; simpl; fold (stateOf w h);
    (destruct (ReadyState_eqb (stateOf w h) CLOSED) eqn:Hc; simpl;
     [ intros _; right; exists h; split; [reflexivity|];
       apply stateOf_eqb; exact Hc
     | intros H; exfalso; apply H; reflexivity ]).
Qed.

(** C8.  In every world the engine can reach from a constructed
    instance: (1) at most one transport handle is connecting or open;
    (2) [connect], called while the instance holds a handle that is not
    closed, asks that handle to close and returns: it creates no handle
    and keeps the reference, and the handle is closing until its close
    event; (3) [connect] creates a handle only when the instance holds
    none or a closed one, and then no handle at all is connecting or
    open; (4) as long as no handshake has failed, every handle but the
    held one is closed, so that [connect] creates a handle only when
    every existing handle is closed. *)
Theorem one_transport_handle {runtime : Runtime} :
  forall (c k : string) (o : option Overrides) (inputs : list input),
    let w := fst (run inputs (initial (initialize c k o))) in
    (forall h1 h2 : handle,
        active w h1 = true -> active w h2 = true -> h1 = h2)
    /\ (forall h : handle,
          _socket (this w) = Some h -> stateOf w h <> CLOSED ->
          exists w1,
            connect w
            = (Normal tt, w1,
               (match _pingTimeout (this w) with
                | Some t => [ClearTimeout t]
                | None => []
                end ++ [Close h])%list)
            /\ _socket (this w1) = Some h
            /\ List.length (sockets w1) = List.length (sockets w)
            /\ stateOf w1 h = CLOSING)
    /\ (count isNewWebSocket (snd (connect w)) <> 0 ->
        (_socket (this w) = None
         \/ exists h, _socket (this w) = Some h /\ stateOf w h = CLOSED)
        /\ forall h : handle, active w h = false)
    /\ (count isHandshakeFailure
          (snd (run inputs (initial (initialize c k o)))) = 0 ->
        (forall h : handle,
            exists_ w h = true -> _socket (this w) <> Some h ->
            stateOf w h = CLOSED)
        /\ (count isNewWebSocket (snd (connect w)) <> 0 ->
            forall h : handle, stateOf w h = CLOSED)).
Proof.
  intros c k o inputs w.
  assert (T : tidy w) by (apply run_tidy, initial_handles).
  assert (K : count isNewWebSocket (snd (connect w)) <> 0 ->
              forall h, _socket (this w) = Some h -> stateOf w h = CLOSED).
  { intros H h E. apply connect_opens_only_when_free in H.
    destruct H as [H|(h' & H & C)]; congruence. }
  split; [|split; [|split]].
  - intros h1 h2 A1 A2.
    apply (active_is_held _ T) in A1. apply (active_is_held _ T) in A2.
    congruence.
  - intros h. apply connect_closes_held.
  - intros H. split; [apply connect_opens_only_when_free; exact H|].
    intros h. destruct (active w h) eqn:A; [|reflexivity]. exfalso.
    pose proof (active_is_held _ T A) as E.
    unfold active in A. apply andb_prop in A. destruct A as [_ A].
    rewrite (K H h E) in A. discriminate A.
  - intros F.
    assert (S : strict w) by (apply run_strict; [apply initial_handles|exact F]).
    assert (O : forall h, exists_ w h = true -> _socket (this w) <> Some h ->
                          stateOf w h = CLOSED).
    { intros h X D. destruct S as [_ S2]. unfold stateOf.
      destruct (nth_error (sockets w) h) as [x|] eqn:N; [|reflexivity].
      exact (S2 h x N D). }
    split; [exact O|].
    intros H h.
    destruct (option_eq_dec_handle (_socket (this w)) (Some h)) as [E|D].
    + exact (K H h E).
    + destruct (exists_ w h) eqn:X; [exact (O h X D)|].
      unfold stateOf. unfold exists_ in X. apply Nat.ltb_ge in X.
      apply nth_error_None in X. rewrite X. reflexivity.
Qed.

(** C8, the counterexample.  A challenge that fails to decrypt makes the
    engine ask handle 0 to close and forget it at once; the handle is
    closing, not closed, until its close event.  A call of [connect] in
    between finds no handle held and opens handle 1: a new handle is
    created while a handle that is not closed exists, and two handles
    are not closed at the same instant. *)
Lemma closing_handle_beside_a_new_one :
  let w := fst (run [AppConnect; SockOpen 0;
                     SockMessage 0
                       "type=challenge&id=42&payload=%7B%22challenge%22%3A%22XXhello%22%7D"]
                  (initial exampleProtocol)) in
  stateOf w 0 = CLOSING
  /\ _socket (this w) = None
  /\ snd (connect w) = [NewWebSocket 1 "wss://ws.webhookify.net/client"]
  /\ stateOf (fst (step AppConnect w)) 0 = CLOSING
  /\ stateOf (fst (step AppConnect w)) 1 = CONNECTING.
Proof. repeat split. Qed.

(** ** The wire codec *)

(** *** Strings *)

Lemma append_assoc (a b c : string) : ((a ++ b) ++ c = a ++ (b ++ c))%string.
Proof. induction a as [|x a IH]; simpl; [reflexivity|rewrite IH; reflexivity]. Qed.

Lemma append_nil_r (a : string) : (a ++ "" = a)%string.
Proof. induction a as [|x a IH]; simpl; [reflexivity|rewrite IH; reflexivity]. Qed.

Lemma length_append (a b : string) :
  String.length (a ++ b) = String.length a + String.length b.
Proof. induction a as [|x a IH]; simpl; [reflexivity|rewrite IH; reflexivity]. Qed.

Lemma has_append (c : ascii) (a b : string) :
  has c (a ++ b) = has c a || has c b.
Proof.
  induction a as [|x a IH]; simpl; [reflexivity|].
  rewrite IH, orb_assoc. reflexivity.
Qed.

Lemma split_through (c : ascii) (a b : string) :
  has c a = false ->
  Str.split c (a ++ String c b) = a :: Str.split c b.
Proof.
  induction a as [|x a IH]; simpl; intros H.
  - rewrite Ascii.eqb_refl. reflexivity.
  - apply orb_false_iff in H. destruct H as [Hx Ha].
    rewrite Hx, (IH Ha). reflexivity.
Qed.

Lemma split_whole (c : ascii) (a : string) :
  has c a = false -> Str.split c a = [a].
Proof.
  induction a as [|x a IH]; simpl; intros H; [reflexivity|].
  apply orb_false_iff in H. destruct H as [Hx Ha].
  rewrite Hx, (IH Ha). reflexivity.
Qed.

(** *** querystring *)

Lemma unescape_escape_char (c : ascii) (s : string) :
  Querystring.unescape (Querystring.escape (String c s))
  = String c (Querystring.unescape (Querystring.escape s)).
Proof.
  destruct c as [[|] [|] [|] [|] [|] [|] [|] [|]]; reflexivity.
Qed.

Lemma unescape_escape (s : string) :
  Querystring.unescape (Querystring.escape s) = s.
Proof.
  induction s as [|c s IH]; [reflexivity|].
  rewrite unescape_escape_char, IH. reflexivity.
Qed.

Lemma escape_has_no_ampersand (s : string) :
  has "&" (Querystring.escape s) = false.
Proof.
  induction s as [|c s IH]; [reflexivity|].
  destruct c as [[|] [|] [|] [|] [|] [|] [|] [|]]; exact IH.
Qed.

Lemma append_char (c : ascii) (x : string) : (String c "" ++ x)%string = String c x.
Proof. reflexivity. Qed.

(** The three fields of a message survive [stringify] then [parse]. *)
Lemma parse_stringify (t i p : string) :
  Querystring.parse
    (Querystring.stringify
       [("type", Some (QStr t)); ("id", Some (QStr i)); ("payload", Some (QStr p))])
  = [("type", QStr t); ("id", QStr i); ("payload", QStr p)].
Proof.
  unfold Querystring.stringify, Querystring.parse. simpl flat_map.
  cbn [Str.join]. rewrite !append_char.
  rewrite split_through by (simpl; apply escape_has_no_ampersand).
  rewrite split_through by (simpl; apply escape_has_no_ampersand).
  rewrite split_whole by (simpl; apply escape_has_no_ampersand).
  simpl. rewrite !unescape_escape. reflexivity.
Qed.

(** *** JSON *)

Lemma json_induction (P : json -> Prop) :
  P JNull -> (forall b, P (JBool b)) -> (forall n, P (JNum n)) ->
  (forall s, P (JStr s)) ->
  (forall l, Forall P l -> P (JArr l)) ->
  (forall l, Forall (fun kv => P (snd kv)) l -> P (JObj l)) ->
  forall v, P v.
Proof.
  intros HN HB HZ HS HA HO.
  fix IH 1. intros [ | b | n | s | l | l].
  - exact HN.
  - apply HB.
  - apply HZ.
  - apply HS.
  - apply HA. induction l as [|x l IHl]; constructor; [apply IH|exact IHl].
  - apply HO. induction l as [|[k x] l IHl]; constructor; [apply IH|exact IHl].
Qed.

Lemma parse_chars_char (c : ascii) (x : string) :
  JSON.parse_chars (JSON.quoteChar c ++ x)
  = JSON.prepend (String c "") (JSON.parse_chars x).
Proof.
  destruct c as [[|] [|] [|] [|] [|] [|] [|] [|]]; reflexivity.
Qed.

Lemma parse_chars_quoted (s rest : string) :
  JSON.parse_chars (JSON.quoteChars s ++ String JSON.dquote rest) = Some (s, rest).
Proof.
  induction s as [|c s IH]; [reflexivity|].
  simpl JSON.quoteChars. rewrite append_assoc, parse_chars_char, IH.
  reflexivity.
Qed.

(** Numbers *)

Lemma to_uint_head (p : positive) (d : uint) : Pos.to_uint p <> D0 d.
Proof.
  pose proof (Unsigned.to_of (Pos.to_uint p)) as H.
  rewrite Unsigned.of_to in H. change (N.to_uint (N.pos p)) with (Pos.to_uint p) in H.
  intros E. unfold unorm in H.
  destruct (nzhead (Pos.to_uint p)) eqn:Hn; try congruence.
  - exact (Unsigned.to_uint_nonzero p H).
  - apply DecimalFacts.nzhead_nonzero in Hn. exact Hn.
Qed.

Lemma digits_uint (u : uint) (rest : string) :
  follows rest = true ->
  JSON.digits (NilEmpty.string_of_uint u ++ rest)
  = (NilEmpty.string_of_uint u, rest).
Proof.
  intros F. induction u; simpl; try (rewrite IHu; reflexivity).
  destruct rest as [|c r]; [reflexivity|]. simpl in *.
  apply negb_true_iff in F. rewrite F. reflexivity.
Qed.

Lemma uint_text (u : uint) :
  u <> Nil -> (forall d, u = D0 d -> d = Nil) ->
  exists c r,
    NilEmpty.string_of_uint u = String c r
    /\ JSON.is_digit c = true
    /\ JSON.leading_zero (String c r) = false.
Proof.
  intros N Z. destruct u; try contradiction.
  1: rewrite (Z u eq_refl).
  all: simpl; eexists; eexists; (split; [reflexivity|]);
    (split; [reflexivity|]); simpl;
    try destruct (NilEmpty.string_of_uint u); reflexivity.
Qed.

Lemma digit_head (c : ascii) :
  c = "-"%char \/ JSON.is_digit c = true ->
  JSON.is_ws c = false
  /\ Ascii.eqb c "n" = false /\ Ascii.eqb c "t" = false
  /\ Ascii.eqb c "f" = false /\ Ascii.eqb c JSON.dquote = false
  /\ Ascii.eqb c "[" = false /\ Ascii.eqb c "{" = false
  /\ Ascii.eqb c "]" = false /\ Ascii.eqb c "}" = false.
Proof.
  intros [H|H]; destruct c as [[|] [|] [|] [|] [|] [|] [|] [|]];
    try discriminate H; repeat split.
Qed.

Lemma digit_not_minus (c : ascii) :
  JSON.is_digit c = true -> Ascii.eqb c "-" = false.
Proof.
  destruct c as [[|] [|] [|] [|] [|] [|] [|] [|]]; intros H;
    try discriminate H; reflexivity.
Qed.

(** The text of a number: an optional sign, then the digits of a
    canonical numeral. *)
Lemma number_text (n : Z) :
  exists (sign : string) (u : uint),
    JSON.number n = (sign ++ NilEmpty.string_of_uint u)%string
    /\ (sign = "" \/ sign = "-")
    /\ u <> Nil /\ (forall d, u = D0 d -> d = Nil)
    /\ NilZero.int_of_string (sign ++ NilEmpty.string_of_uint u)
       = Some (Z.to_int n).
Proof.
  assert (K : forall u, u <> Nil ->
              NilZero.string_of_uint u = NilEmpty.string_of_uint u)
    by (intros u H; destruct u; try reflexivity; contradiction).
  unfold JSON.number. destruct n as [|p|p]; simpl Z.to_int.
  - exists "", zero. repeat split; auto.
    + discriminate.
    + intros d E. injection E as <-. reflexivity.
  - exists "", (Pos.to_uint p).
    pose proof (Unsigned.to_uint_nonnil p) as N.
    split; [simpl; apply K; exact N|].
    split; [auto|]. split; [exact N|].
    split; [intros d E; apply to_uint_head in E; contradiction|].
    rewrite <- (K _ N).
    change ("" ++ NilZero.string_of_uint (Pos.to_uint p))%string
      with (NilZero.string_of_int (Pos (Pos.to_uint p))).
    apply NilZero.isi; congruence.
  - exists "-", (Pos.to_uint p).
    pose proof (Unsigned.to_uint_nonnil p) as N.
    split; [simpl; rewrite (K _ N); reflexivity|].
    split; [auto|]. split; [exact N|].
    split; [intros d E; apply to_uint_head in E; contradiction|].
    rewrite <- (K _ N).
    change ("-" ++ NilZero.string_of_uint (Pos.to_uint p))%string
      with (NilZero.string_of_int (Neg (Pos.to_uint p))).
    apply NilZero.isi; congruence.
Qed.

Lemma parse_number_text (n : Z) (rest : string) :
  follows rest = true ->
  JSON.parse_number (JSON.number n ++ rest) = Some (n, rest).
Proof.
  intros F. destruct (number_text n) as (sign & u & E & S & N & Z0 & I).
  destruct (uint_text N Z0) as (c & r & Eu & Dc & L).
  rewrite E. unfold JSON.parse_number.
  pose proof (@digits_uint u rest F) as D.
  destruct S as [-> | ->]; cbn [append] in *.
  - rewrite Eu in *. cbn [append] in *.
    rewrite (digit_not_minus _ Dc), D, L.
    cbn [String.eqb orb append]. rewrite I, DecimalZ.of_to. reflexivity.
  - rewrite Ascii.eqb_refl, D. rewrite Eu in *. rewrite L.
    cbn [String.eqb orb append]. rewrite I, DecimalZ.of_to. reflexivity.
Qed.

(** Values *)

Lemma skip_ws_head (c : ascii) (r : string) :
  JSON.is_ws c = false -> JSON.skip_ws (String c r) = String c r.
Proof. intros H. simpl. rewrite H. reflexivity. Qed.

Lemma parse_value_number (fuel : nat) (c : ascii) (r : string) :
  c = "-"%char \/ JSON.is_digit c = true ->
  JSON.parse_value (S fuel) (String c r)
  = match JSON.parse_number (String c r) with
    | Some (n, rest) => Some (JNum n, rest)
    | None => None
    end.
Proof.
  intros H. destruct (digit_head H) as (W & H1 & H2 & H3 & H4 & H5 & H6 & _).
  cbn [JSON.parse_value]. rewrite skip_ws_head by exact W.
  rewrite H1, H2, H3, H4, H5, H6. reflexivity.
Qed.

Lemma number_head (n : Z) :
  exists c r, JSON.number n = String c r
              /\ (c = "-"%char \/ JSON.is_digit c = true).
Proof.
  destruct (number_text n) as (sign & u & E & S & N & Z0 & _).
  destruct (uint_text N Z0) as (c & r & Eu & Dc & _).
  rewrite E, Eu. destruct S as [-> | ->]; simpl; eauto.
Qed.

(** The first character of the text of a value: no white space, no
    closing bracket. *)
Lemma print_head (v : json) :
  exists c r, JSON.print v = String c r
              /\ JSON.is_ws c = false /\ Ascii.eqb c "]" = false.
Proof.
  destruct v as [ | [|] | n | s | l | l];
    try (eexists; eexists; split; [reflexivity|split; reflexivity]).
  destruct (number_head n) as (c & r & E & H).
  destruct (digit_head H) as (W & _ & _ & _ & _ & _ & _ & B & _).
  exists c, r. simpl. auto.
Qed.

Lemma parse_elements_print (l : list json) :
  l <> [] -> Forall roundtrips l ->
  forall (fuel : nat) (rest : string),
    forallb wellFormed l = true ->
    fold_right (fun x n => S (size x + n)) 0 l <= fuel ->
    JSON.parse_elements fuel
      (Str.join "," (map JSON.print l) ++ String "]" rest)
    = Some (l, rest).
Proof.
  intros N F. induction F as [|x l Hx F IH]; [contradiction|].
  intros fuel rest W S. simpl in W. apply andb_prop in W. destruct W as [Wx Wl].
  simpl in S. destruct fuel as [|fuel]; [lia|].
  destruct l as [|y l].
  - simpl Str.join. cbn [JSON.parse_elements].
    rewrite Hx; [reflexivity | exact Wx | lia | reflexivity].
  - change (Str.join "," (map JSON.print (x :: y :: l)))
      with (JSON.print x ++ "," ++ Str.join "," (map JSON.print (y :: l)))%string.
    rewrite append_assoc, append_assoc, append_char.
    cbn [JSON.parse_elements].
    rewrite Hx; [ | exact Wx | lia | reflexivity].
    rewrite skip_ws_head by reflexivity.
    change (Ascii.eqb "," ",") with true. cbv iota.
    rewrite IH; [reflexivity|discriminate|exact Wl|].
    simpl in S |- *. lia.
Qed.

Lemma parse_members_print (l : list (string * json)) :
  l <> [] -> Forall (fun kv => roundtrips (snd kv)) l ->
  forall (fuel : nat) (rest : string),
    forallb (fun kv => match kv with (_, x) => wellFormed x end) l = true ->
    fold_right (fun kv n => match kv with (_, x) => S (size x + n) end) 0 l
    <= fuel ->
    JSON.parse_members fuel
      (Str.join ","
         (map (fun kv => match kv with
                         | (k, x) => JSON.quote k ++ ":" ++ JSON.print x
                         end) l) ++ String "}" rest)
    = Some (l, rest).
Proof.
  intros N F. induction F as [|[k x] l Hx F IH]; [contradiction|].
  intros fuel rest W S. simpl in W. apply andb_prop in W. destruct W as [Wx Wl].
  simpl in Hx. destruct fuel as [|fuel]; [simpl in S; lia|].
  destruct l as [|y l].
  - simpl map. cbn [Str.join]. unfold JSON.quote.
    cbn [append]. rewrite !append_assoc. cbn [append].
    cbn [JSON.parse_members].
    rewrite skip_ws_head by reflexivity.
    change (Ascii.eqb JSON.dquote JSON.dquote) with true. cbv iota.
    rewrite parse_chars_quoted.
    rewrite skip_ws_head by reflexivity.
    change (Ascii.eqb ":" ":") with true. cbv iota.
    rewrite Hx; [reflexivity | exact Wx | simpl in S; lia | reflexivity].
  - change (map (fun kv : string * json =>
                   let (k0, x0) := kv in (JSON.quote k0 ++ ":" ++ JSON.print x0)%string)
              ((k, x) :: y :: l))
      with ((JSON.quote k ++ ":" ++ JSON.print x)%string
            :: map (fun kv : string * json =>
                      let (k0, x0) := kv in (JSON.quote k0 ++ ":" ++ JSON.print x0)%string)
                 (y :: l)).
    set (J := map _ (y :: l)) in *.
    change (Str.join "," ((JSON.quote k ++ ":" ++ JSON.print x)%string :: J))
      with ((JSON.quote k ++ ":" ++ JSON.print x) ++ "," ++ Str.join "," J)%string.
    unfold JSON.quote.
    cbn [append]. rewrite !append_assoc. cbn [append].
    cbn [JSON.parse_members].
    rewrite skip_ws_head by reflexivity.
    change (Ascii.eqb JSON.dquote JSON.dquote) with true. cbv iota.
    rewrite parse_chars_quoted.
    rewrite skip_ws_head by reflexivity.
    change (Ascii.eqb ":" ":") with true. cbv iota.
    rewrite Hx; [ | exact Wx | simpl in S; lia | reflexivity].
    rewrite skip_ws_head by reflexivity.
    change (Ascii.eqb "," ",") with true. cbv iota.
    rewrite IH; [reflexivity|discriminate|exact Wl|].
    simpl in S |- *. lia.
Qed.

(** Objects without repeated keys *)

Lemma mem_In (x : string) (l : list string) : Str.mem x l = true <-> In x l.
Proof.
  induction l as [|y l IH]; simpl; [split; [discriminate|contradiction]|].
  rewrite orb_true_iff, IH, String.eqb_eq. split; intros [H|H]; auto.
Qed.

Lemma setProperty_fresh (o : list (string * json)) (k : string) (v : json) :
  ~ In k (map fst o) -> JSON.setProperty o k v = (o ++ [(k, v)])%list.
Proof.
  induction o as [|[k' x] o IH]; simpl; intros H; [reflexivity|].
  destruct (String.eqb_spec k' k) as [E|_]; [exfalso; auto|].
  rewrite IH by auto. reflexivity.
Qed.

Lemma object_fold (l acc : list (string * json)) :
  unique (map fst l) = true ->
  (forall k, In k (map fst l) -> ~ In k (map fst acc)) ->
  fold_left (fun o kv => JSON.setProperty o (fst kv) (snd kv)) l acc
  = (acc ++ l)%list.
Proof.
  revert acc. induction l as [|[k v] l IH]; intros acc U D; simpl.
  - rewrite List.app_nil_r. reflexivity.
  - simpl in U. apply andb_prop in U. destruct U as [Uk Ul].
    apply negb_true_iff in Uk.
    rewrite setProperty_fresh by (apply D; simpl; auto).
    rewrite IH; [rewrite <- List.app_assoc; reflexivity|exact Ul|].
    intros k' Hk'. rewrite List.map_app, List.in_app_iff. simpl.
    intros [H|[H|[]]].
    + apply (D k'); simpl; auto.
    + subst k'. apply mem_In in Hk'. congruence.
Qed.

Lemma object_unique (l : list (string * json)) :
  unique (map fst l) = true -> JSON.object l = JObj l.
Proof.
  intros U. unfold JSON.object. rewrite object_fold; auto.
Qed.

(** Every well-formed value is read back from its text. *)
Lemma parse_print (v : json) : roundtrips v.
Proof.
  induction v as [ | b | n | s | l IH | l IH] using json_induction;
    intros fuel rest W S F; (destruct fuel as [|fuel]; [simpl in S; lia|]).
  - destruct rest; reflexivity.
  - destruct b, rest; reflexivity.
  - destruct (number_head n) as (c & r & E & H).
    simpl JSON.print. pose proof (@parse_number_text n rest F) as P.
    rewrite E in *. cbn [append] in *.
    rewrite parse_value_number by exact H. rewrite P. reflexivity.
  - simpl JSON.print. unfold JSON.quote. cbn [append].
    rewrite append_assoc. cbn [append JSON.parse_value].
    rewrite skip_ws_head by reflexivity.
    change (Ascii.eqb JSON.dquote "n") with false.
    change (Ascii.eqb JSON.dquote "t") with false.
    change (Ascii.eqb JSON.dquote "f") with false.
    change (Ascii.eqb JSON.dquote JSON.dquote) with true. cbv iota.
    rewrite parse_chars_quoted. reflexivity.
  - simpl JSON.print. cbn [append]. rewrite append_assoc. cbn [append].
    cbn [JSON.parse_value]. rewrite skip_ws_head by reflexivity.
    change (Ascii.eqb "[" "n") with false.
    change (Ascii.eqb "[" "t") with false.
    change (Ascii.eqb "[" "f") with false.
    change (Ascii.eqb "[" JSON.dquote) with false.
    change (Ascii.eqb "[" "[") with true. cbv iota.
    destruct l as [|x l]; [reflexivity|].
    rewrite parse_elements_print;
      [ | discriminate | exact IH | exact W | simpl in S |- *; lia ].
    destruct (print_head x) as (c & r & E & Wc & B).
    destruct l as [|y l].
    + simpl map. cbn [Str.join]. rewrite E. cbn [append].
      rewrite skip_ws_head by exact Wc. rewrite B. reflexivity.
    + change (Str.join "," (map JSON.print (x :: y :: l)))
        with (JSON.print x ++ "," ++ Str.join "," (map JSON.print (y :: l)))%string.
      rewrite E. cbn [append].
      rewrite skip_ws_head by exact Wc. rewrite B. reflexivity.
  - simpl JSON.print. cbn [append]. rewrite append_assoc. cbn [append].
    cbn [JSON.parse_value]. rewrite skip_ws_head by reflexivity.
    change (Ascii.eqb "{" "n") with false.
    change (Ascii.eqb "{" "t") with false.
    change (Ascii.eqb "{" "f") with false.
    change (Ascii.eqb "{" JSON.dquote) with false.
    change (Ascii.eqb "{" "[") with false.
    change (Ascii.eqb "{" "{") with true. cbv iota.
    destruct l as [|[k x] l]; [reflexivity|].
    simpl in W. apply andb_prop in W. destruct W as [U W].
    rewrite parse_members_print;
      [ | discriminate | exact IH | exact W | simpl in S |- *; lia ].
    rewrite object_unique by exact U.
    destruct l as [|y l].
    + simpl map. cbn [Str.join]. unfold JSON.quote. cbn [append].
      rewrite skip_ws_head by reflexivity. reflexivity.
    + simpl map. cbn [Str.join]. unfold JSON.quote. cbn [append].
      rewrite skip_ws_head by reflexivity. reflexivity.
Qed.

Lemma length_join_elements (l : list json) :
  Forall (fun v => size v <= String.length (JSON.print v)) l ->
  fold_right (fun x n => S (size x + n)) 0 l
  <= String.length (Str.join "," (map JSON.print l)) + 1.
Proof.
  intros F. induction F as [|x l Hx F IH]; [simpl; lia|].
  destruct l as [|y l].
  - simpl. lia.
  - change (Str.join "," (map JSON.print (x :: y :: l)))
      with (JSON.print x ++ "," ++ Str.join "," (map JSON.print (y :: l)))%string.
    rewrite !length_append. simpl in IH |- *. lia.
Qed.

Lemma length_join_members (l : list (string * json)) :
  Forall (fun kv => size (snd kv) <= String.length (JSON.print (snd kv))) l ->
  fold_right (fun kv n => match kv with (_, x) => S (size x + n) end) 0 l
  <= String.length
       (Str.join ","
          (map (fun kv => match kv with
                          | (k, x) => JSON.quote k ++ ":" ++ JSON.print x
                          end) l)) + 1.
Proof.
  intros F. induction F as [|[k x] l Hx F IH]; [simpl; lia|].
  simpl in Hx. destruct l as [|y l].
  - simpl map. cbn [Str.join fold_right]. unfold JSON.quote.
    cbn [append String.length]. rewrite !length_append. simpl. lia.
  - change (map (fun kv : string * json =>
                   let (k0, x0) := kv in (JSON.quote k0 ++ ":" ++ JSON.print x0)%string)
              ((k, x) :: y :: l))
      with ((JSON.quote k ++ ":" ++ JSON.print x)%string
            :: map (fun kv : string * json =>
                      let (k0, x0) := kv in (JSON.quote k0 ++ ":" ++ JSON.print x0)%string)
                 (y :: l)) in *.
    set (J := map _ (y :: l)) in *.
    change (Str.join "," ((JSON.quote k ++ ":" ++ JSON.print x)%string :: J))
      with ((JSON.quote k ++ ":" ++ JSON.print x) ++ "," ++ Str.join "," J)%string.
    set (SJ := Str.join "," J) in *. clearbody SJ. clear J.
    cbn [fold_right] in *.
    unfold JSON.quote. cbn [append String.length]. rewrite !length_append.
    simpl String.length. lia.
Qed.

Lemma size_le_length (v : json) : size v <= String.length (JSON.print v).
Proof.
  induction v as [ | b | n | s | l IH | l IH] using json_induction.
  - simpl. lia.
  - destruct b; simpl; lia.
  - destruct (number_head n) as (c & r & E & _). simpl. rewrite E. simpl. lia.
  - simpl. lia.
  - pose proof (length_join_elements IH) as H.
    simpl JSON.print. set (SJ := Str.join "," _) in *. clearbody SJ.
    cbn [append String.length]. rewrite length_append.
    simpl in H |- *. lia.
  - pose proof (length_join_members IH) as H.
    simpl JSON.print. set (SJ := Str.join "," _) in *. clearbody SJ.
    cbn [append String.length]. rewrite length_append.
    simpl in H |- *. lia.
Qed.

(** [JSON.parse(JSON.stringify(v))] is [v]. *)
Lemma parse_stringify_json (v : json) :
  wellFormed v = true -> JSON.parse (JSON.print v) = Some v.
Proof.
  intros W. unfold JSON.parse.
  pose proof (@parse_print v (S (String.length (JSON.print v))) "" W) as P.
  rewrite append_nil_r in P. rewrite P; [reflexivity| |reflexivity].
  pose proof (size_le_length v). lia.
Qed.

(** *** Frames field by field *)

Lemma escape_has_no_equals (s : string) :
  has "=" (Querystring.escape s) = false.
Proof.
  induction s as [|c s IH]; [reflexivity|].
  destruct c as [[|] [|] [|] [|] [|] [|] [|] [|]]; exact IH.
Qed.

Lemma cut_through (c : ascii) (a b : string) :
  has c a = false -> Str.cut c (a ++ String c b) = (a, Some b).
Proof.
  induction a as [|x a IH]; simpl; intros H.
  - rewrite Ascii.eqb_refl. reflexivity.
  - apply orb_false_iff in H. destruct H as [Hx Ha].
    rewrite Hx, (IH Ha). reflexivity.
Qed.

Lemma split_join (l : list string) :
  l <> [] -> Forall (fun s => has "&" s = false) l ->
  Str.split "&" (Str.join "&" l) = l.
Proof.
  intros N F. induction F as [|x l Hx F IH]; [contradiction|].
  destruct l as [|y l].
  - simpl. apply split_whole. exact Hx.
  - change (Str.join "&" (x :: y :: l))
      with (x ++ "&" ++ Str.join "&" (y :: l)).
    cbn [append]. rewrite split_through by exact Hx.
    rewrite IH by discriminate. reflexivity.
Qed.

Lemma get_addKeyValue_other (o : qsobject) (k k' v : string) :
  k <> k' ->
  Querystring.get (Querystring.addKeyValue o k v) k' = Querystring.get o k'.
Proof.
  intros H. induction o as [|[k0 x] o IH]; simpl.
  - destruct (String.eqb_spec k k'); [contradiction|reflexivity].
  - destruct (String.eqb_spec k0 k) as [->|Hk]; simpl.
    + destruct (String.eqb_spec k k'); [contradiction|reflexivity].
    + rewrite IH. reflexivity.
Qed.

Lemma get_type_kept (segs : list string) (o : qsobject) :
  Forall (fun seg => exists k v, seg = (Querystring.escape k ++ "=") ++ v
                                 /\ k <> "type") segs ->
  Querystring.get (fold_left parseStep segs o) "type" = Querystring.get o "type".
Proof.
  intros F. revert o. induction F as [|seg segs (k & v & -> & Hk) F IH]; intros o.
  - reflexivity.
  - simpl. rewrite IH. unfold parseStep.
    rewrite append_assoc.
    destruct (Querystring.escape k ++ "=" ++ v =? "") eqn:E.
    { reflexivity. }
    cbn [append]. rewrite cut_through by apply escape_has_no_equals.
    rewrite unescape_escape. apply get_addKeyValue_other. exact Hk.
Qed.

Lemma firstn_Forall {A} (Q : A -> Prop) (n : nat) (l : list A) :
  Forall Q l -> Forall Q (firstn n l).
Proof.
  intros F. revert n. induction F as [|x l Hx F IH]; intros [|n]; simpl;
    constructor; auto.
Qed.

Lemma fields_no_ampersand (k : string) (v : option qsvalue) :
  Forall (fun s => has "&" s = false) (Querystring.fields k v).
Proof.
  unfold Querystring.fields.
  destruct v as [[s|l]|]; repeat constructor;
    rewrite ?has_append, ?escape_has_no_ampersand; try reflexivity.
  apply Forall_forall. intros x Hx. apply in_map_iff in Hx.
  destruct Hx as (y & <- & _).
  rewrite !has_append, !escape_has_no_ampersand. reflexivity.
Qed.

Lemma fields_shape (k : string) (v : option qsvalue) :
  k <> "type" ->
  Forall (fun seg => exists k v, seg = (Querystring.escape k ++ "=") ++ v
                                 /\ k <> "type") (Querystring.fields k v).
Proof.
  intros H. unfold Querystring.fields.
  destruct v as [[s|l]|]; repeat constructor.
  - exists k, (Querystring.escape s). auto.
  - apply Forall_forall. intros x Hx. apply in_map_iff in Hx.
    destruct Hx as (y & <- & _). exists k, (Querystring.escape y). auto.
  - exists k, "". rewrite append_nil_r. auto.
Qed.

(** Whatever the id (string or array) and the payload, the frame reads
    back with the type it was built with. *)
Lemma encodeMessage_type (t : string) (id : qsvalue) (payload : option json) :
  Querystring.get (Querystring.parse (encodeMessage t id payload)) "type"
  = Some (QStr t).
Proof.
  unfold encodeMessage, Querystring.stringify, Querystring.parse.
  fold parseStep. cbn [flat_map fst snd].
  set (rest := (Querystring.fields "id" (Some id)
                ++ Querystring.fields "payload"
                     (option_map QStr (JSON.stringify payload)) ++ [])%list).
  change (Querystring.fields "type" (Some (QStr t)) ++ rest)%list
    with (((Querystring.escape "type" ++ "=") ++ Querystring.escape t) :: rest).
  rewrite split_join.
  - change Querystring.maxKeys with (S 999). rewrite firstn_cons.
    cbn [fold_left].
    rewrite get_type_kept.
    + unfold parseStep. rewrite append_assoc.
      destruct (Querystring.escape "type" ++ "=" ++ Querystring.escape t =? "") eqn:E;
        [discriminate E|].
      cbn [append]. rewrite cut_through by reflexivity.
      rewrite !unescape_escape. reflexivity.
    + apply firstn_Forall. unfold rest.
      apply Forall_app. split; [apply fields_shape; discriminate|].
      apply Forall_app. split; [apply fields_shape; discriminate|constructor].
  - discriminate.
  - constructor.
    + rewrite !has_append, !escape_has_no_ampersand. reflexivity.
    + unfold rest. apply Forall_app. split; [apply fields_no_ampersand|].
      apply Forall_app. split; [apply fields_no_ampersand|constructor].
Qed.













(** *** The codec of the engine *)



(** What [sendReply] hands to the transport reads back, field by field,
    as type reply, the id and the payload. *)
Lemma reply_frame_fields (i : string) (v : json) :
  wellFormed v = true ->
  let o := Querystring.parse (encodeMessage "reply" (QStr i) (Some v)) in
  Querystring.get o "type" = Some (QStr "reply")
  /\ Querystring.get o "id" = Some (QStr i)
  /\ exists raw, Querystring.get o "payload" = Some (QStr raw)
                 /\ JSON.parse raw = Some v.
Proof.
  intros W. unfold encodeMessage. simpl option_map. cbv zeta.
  rewrite parse_stringify. repeat split.
  exists (JSON.print v). split; [reflexivity|].
  apply parse_stringify_json. exact W.
Qed.




(* ================================================================== *)
(** * Part III. Further properties of the engine                        *)
(* ================================================================== *)

(** The methods and listeners of the class taken one by one and in
    combination: frames in any field order, the reply of a fetch, what a
    frame can make the engine throw or send, the two timers, the
    reconnect cycle and the recovery after a liveness timeout. *)

(** ** Frames in any field order *)













(** ** What [encodeMessage] builds *)

(** X3.  [encodeMessage] loses nothing: two frames built from string
    ids and JSON values without a repeated object key are equal only if
    the types, the ids and the payloads are equal, whatever characters
    the type and the id hold. *)
Theorem encodeMessage_injective :
  forall (t t' i i' : string) (v v' : json),
    wellFormed v = true -> wellFormed v' = true ->
    encodeMessage t (QStr i) (Some v) = encodeMessage t' (QStr i') (Some v') ->
    t = t' /\ i = i' /\ v = v'.
Proof.
  intros t t' i i' v v' W W' E.
  apply (f_equal Querystring.parse) in E.
  unfold encodeMessage in E. simpl option_map in E.
  rewrite !parse_stringify in E.
  injection E as Et Ei Ev.
  repeat split; auto.
  apply (f_equal JSON.parse) in Ev.
  rewrite !parse_stringify_json in Ev by assumption.
  congruence.
Qed.

Lemma encodeMessage_injective_witness :
  "reply" = "reply" /\ "7" = "7" /\ JObj [("x", JNum 1)] = JObj [("x", JNum 1)].
Proof.
  apply (@encodeMessage_injective "reply" "reply" "7" "7"
           (JObj [("x", JNum 1)]) (JObj [("x", JNum 1)]));
    reflexivity.
Defined.

(** X4.  A frame built with an undefined payload ([JSON.stringify]
    gives [undefined], written as the empty string) has the three fields
    with an empty payload; the empty text is not JSON, so the decoder
    drops such a frame, whatever its type. *)
Theorem undefined_payload_frame :
  forall (t i : string),
    Querystring.parse (encodeMessage t (QStr i) None)
    = [("type", QStr t); ("id", QStr i); ("payload", QStr "")]
    /\ JSON.parse "" = None
    /\ Decode (encodeMessage t (QStr i) None) = None.
Proof.
  intros t i.
  assert (E : encodeMessage t (QStr i) None
              = Querystring.stringify
                  [("type", Some (QStr t)); ("id", Some (QStr i));
                   ("payload", Some (QStr ""))]).
  { reflexivity. }
  rewrite E. split; [apply parse_stringify|split; [reflexivity|]].
  unfold Decode. rewrite parse_stringify. simpl.
  destruct (t =? "challenge"), (t =? "push"), (t =? "fetch"); reflexivity.
Qed.

(** X5.  [sendError], while the instance holds a handle: one frame is
    handed to that handle and nothing else happens; the frame reads back
    as type error, the id, and the JSON text of the object whose only
    property is [message], the message of the error. *)
Theorem sendError_frame :
  forall (w : World) (h : handle) (i : string) (err : exception),
    _socket (this w) = Some h ->
    exists data : string,
      sendError (QStr i) err w = (Normal Pending, w, [Send h data])
      /\ Querystring.parse data
         = [("type", QStr "error"); ("id", QStr i);
            ("payload", QStr (JSON.print (JObj [("message", JStr (message err))])))]
      /\ JSON.parse (JSON.print (JObj [("message", JStr (message err))]))
         = Some (JObj [("message", JStr (message err))]).
Proof.
  intros w h i err S.
  exists (encodeMessage "error" (QStr i)
            (Some (JObj [("message", JStr (message err))]))).
  split; [|split].
  - unfold sendError, transmit. unfold_monad. rewrite S. reflexivity.
  - unfold encodeMessage. simpl option_map. apply parse_stringify.
  - apply parse_stringify_json. reflexivity.
Qed.

Lemma sendError_frame_witness :
  exists data : string,
    sendError (QStr "7") (Error "no such repo") exampleOpen
    = (Normal Pending, exampleOpen, [Send 0 data])
    /\ Querystring.parse data
       = [("type", QStr "error"); ("id", QStr "7");
          ("payload",
           QStr (JSON.print (JObj [("message", JStr "no such repo")])))].
Proof.
  destruct (@sendError_frame exampleOpen 0 "7" (Error "no such repo") eq_refl)
    as (data & A & B & _).
  exists data. split; [exact A|exact B].
Defined.

Lemma step_sends_replies {runtime : Runtime} (i : input) (w : World) :
  forallb isReplyFrame (snd (step i w)) = true.
Proof.
  unfold step. destruct (enabled w i); [|reflexivity].
  destruct i; unfold deliver; try rewrite processMessage_Decode;
    run_methods; simpl; auto.
  all: match goal with
       | H : Querystring.get (Querystring.parse (encodeMessage _ _ _)) _ = _ |- _ =>
           rewrite encodeMessage_type in H; try discriminate H;
           injection H as <-; reflexivity
       end.
Qed.

(** X6.  Whatever the inputs, from any world: every frame the engine
    hands to a transport handle reads back with type reply.  No error
    frame is ever sent: [sendError] is called by no method, listener or
    reply function. *)
Theorem only_reply_frames_are_sent {runtime : Runtime} :
  forall (inputs : list input) (w : World) (h : handle) (data : string),
    In (Send h data) (snd (run inputs w)) ->
    Querystring.get (Querystring.parse data) "type" = Some (QStr "reply").
Proof.
  intros inputs w h data H.
  assert (F : forallb isReplyFrame (snd (run inputs w)) = true).
  { clear H. revert w. induction inputs as [|i r IH]; intros w; [reflexivity|].
    rewrite run_cons_trace, forallb_app, step_sends_replies, IH. reflexivity. }
  apply (proj1 (forallb_forall _ _) F) in H. simpl in H.
  destruct (Querystring.get (Querystring.parse data) "type") as [[t|l]|];
    try discriminate H.
  apply String.eqb_eq in H. subst t. reflexivity.
Qed.

Lemma only_reply_frames_are_sent_witness :
  Querystring.get (Querystring.parse "type=reply&id=7&payload=") "type"
  = Some (QStr "reply").
Proof.
  apply (@only_reply_frames_are_sent exampleRuntime
           [AppReply (ReplyFunction (QStr "7")) (Some (Error "boom")) None]
           exampleOpen 0).
  left. reflexivity.
Defined.

(** ** Exceptions and the missing handle *)

(** X7.  [processMessage] throws exactly when the frame decodes to a
    challenge whose payload is the JSON value [null]; it then throws the
    TypeError of the property read, with nothing emitted and the world
    unchanged.  Every other frame, in every world, returns normally
    (a listener being registered for each event, the error event
    included, and the listeners returning normally). *)
Theorem processMessage_throws_only_on_null_challenge {runtime : Runtime} :
  forall (message : string) (w : World),
    ((exists e w1 t, processMessage message w = (Throw e, w1, t))
     <-> (exists i p, Decode message
                      = Some {| wtype := "challenge"; wid := i; wplugin := p;
                                wpayload := JNull |}))
    /\ (forall e w1 t,
          processMessage message w = (Throw e, w1, t) ->
          e = TypeError "Cannot read properties of null" /\ w1 = w /\ t = []).
Proof.
  intros message w. rewrite processMessage_Decode.
  destruct (Decode message) as [[t i p v]|] eqn:D.
  - unfold dispatch. simpl.
    destruct (String.eqb_spec t "challenge") as [->|Ht].
    + destruct v; run_methods;
        (split; [split; [intros (e & w1 & tr & E); try discriminate E; eauto
                        | intros (i' & p' & E); try discriminate E;
                          eauto ]
                | intros e w1 tr E; try discriminate E ]).
      all: try (injection E as <- <- <-; auto).
    + split.
      * split.
        -- intros (e & w1 & tr & E).
           destruct (t =? "push"); discriminate E.
        -- intros (i' & p' & E). injection E as E _ _ _. contradiction.
      * intros e w1 tr E. destruct (t =? "push"); discriminate E.
  - split.
    + split; [intros (e & w1 & tr & E); discriminate E
             |intros (i' & p' & E); discriminate E].
    + intros e w1 tr E. discriminate E.
Qed.

(** X8.  A challenge frame handled while the instance holds no handle
    (before [connect], or after a failed challenge dropped it), its
    payload not [null]: when the ciphertext decrypts nothing is sent
    (the promise of the reply is rejected); when it does not, the error
    event is emitted and that is all.  In both cases the world is
    unchanged: [reconnect] is not disabled. *)
Theorem challenge_without_handle {runtime : Runtime} :
  forall (message : string) (w : World) (id : qsvalue) (plugin : option qsvalue)
         (payload : json),
    Decode message = Some {| wtype := "challenge"; wid := id;
                             wplugin := plugin; wpayload := payload |} ->
    payload <> JNull ->
    _socket (this w) = None ->
    processMessage message w
    = (Normal tt, w,
       match decryptChallenge (_privateKey (this w)) (challengeOf payload) with
       | Some _ => []
       | None =>
           [Emit (error (Error
              "The provided private key failed to decrypt the challenge."))]
       end)
    /\ (forall response : string,
          sendReply id (Some (JObj [("response", JStr response)])) w
          = (Normal (Rejected (TypeError "Cannot read properties of null")),
             w, [])).
Proof.
  intros message w id plugin payload D P S. split.
  - rewrite processMessage_Decode, D.
    unfold dispatch, _handleChallenge, property, sendReply, transmit; simpl.
    destruct payload; try contradiction; unfold_monad; simpl;
      destruct (decryptChallenge _ _); simpl; rewrite S; reflexivity.
  - intros response. unfold sendReply, transmit. unfold_monad. rewrite S.
    reflexivity.
Qed.

Lemma challenge_without_handle_witness :
  processMessage "type=challenge&id=1&payload=%7B%7D" (initial exampleProtocol)
  = (Normal tt, initial exampleProtocol,
     [Emit (error (Error
        "The provided private key failed to decrypt the challenge."))]).
Proof.
  destruct (@challenge_without_handle exampleRuntime
              "type=challenge&id=1&payload=%7B%7D" (initial exampleProtocol)
              (QStr "1") None (JObj [])) as [A _];
    [reflexivity | discriminate | reflexivity | exact A].
Defined.

(** X9.  While the instance holds no handle, a reply function,
    [sendReply] and [sendError] send nothing and do not throw: the
    promise they return is rejected with the TypeError of the call on
    [null], and the world is unchanged. *)
Theorem replies_rejected_without_handle {runtime : Runtime} :
  forall (w : World),
    _socket (this w) = None ->
    forall (id : qsvalue),
      (forall (err : option exception) (response : option json),
          call (_generateReplyFunction id) err response w
          = (Normal (Rejected (TypeError "Cannot read properties of null")),
             w, []))
      /\ (forall payload : option json,
            sendReply id payload w
            = (Normal (Rejected (TypeError "Cannot read properties of null")),
               w, []))
      /\ (forall err : exception,
            sendError id err w
            = (Normal (Rejected (TypeError "Cannot read properties of null")),
               w, []))
      /\ (forall (f : replyFunction) (err : option exception)
                 (response : option json),
            step (AppReply f err response) w = (w, [])).
Proof.
  intros w S id. repeat split; intros;
    unfold step, enabled, deliver, call, _generateReplyFunction, sendReply,
      sendError, transmit; unfold_monad; try destruct f; rewrite S; reflexivity.
Qed.

Lemma replies_rejected_without_handle_witness :
  step (AppReply (ReplyFunction (QStr "7")) None (Some (JObj [])))
    (initial exampleProtocol)
  = (initial exampleProtocol, []).
Proof.
  destruct (@replies_rejected_without_handle exampleRuntime
              (initial exampleProtocol) eq_refl (QStr "7")) as (_ & _ & _ & A).
  apply A.
Defined.

(** ** The two timers *)

Ltac timers_cases :=
  repeat match goal with
    | H : _ /\ _ |- _ => destruct H
    | H : _ \/ _ |- _ => destruct H
    | H : Some _ = Some _ |- _ => injection H as H; subst
    | H : context [Nat.eqb ?a ?a] |- _ => rewrite Nat.eqb_refl in H; simpl in H
    | |- context [Nat.eqb ?a ?a] => rewrite Nat.eqb_refl; simpl
    | N : ?a <> ?b |- context [Nat.eqb ?a ?b] =>
        rewrite (proj2 (Nat.eqb_neq a b) N); simpl
    | N : ?a <> ?b |- context [Nat.eqb ?b ?a] =>
        rewrite (proj2 (Nat.eqb_neq b a) (not_eq_sym N)); simpl
    | N : ?a <> ?b, H : context [Nat.eqb ?a ?b] |- _ =>
        rewrite (proj2 (Nat.eqb_neq a b) N) in H; simpl in H
    | N : ?a <> ?b, H : context [Nat.eqb ?b ?a] |- _ =>
        rewrite (proj2 (Nat.eqb_neq b a) (not_eq_sym N)) in H; simpl in H
    end.

Lemma step_timersKept {runtime : Runtime} (i : input) (w : World) :
  timersKept w -> timersKept (fst (step i w)).
Proof.
  intros T. unfold step. destruct (enabled w i) eqn:E; [|exact T].
  destruct w as [p ss ts n]. destruct p as [c k o s r pt g].
  unfold timersKept, reconnectTimer, pingTimer, removeTimer in *. simpl in T.
  destruct i; unfold deliver; try rewrite processMessage_Decode;
    unfold enabled, findTimer in E; simpl in E.
  all: destruct r as [r|], pt as [pt|]; timers_cases; subst.
  all: unfold findTimer, removeTimer; simpl.
  all: run_methods; simpl; unfold removeTimer; simpl; timers_cases; auto.
  all: repeat match goal with
         | H : Nat.eqb _ _ = true |- _ => apply Nat.eqb_eq in H
         | H : Nat.eqb _ _ = false |- _ => apply Nat.eqb_neq in H
         | H : negb _ = true |- _ => apply negb_true_iff in H
         | H : negb _ = false |- _ => apply negb_false_iff in H
         end.
  all: try discriminate; try congruence; try lia.
  all: simpl in *; try discriminate; try congruence.
  all: repeat split; auto; try lia.
Qed.

Lemma run_timersKept {runtime : Runtime} (inputs : list input) (w : World) :
  timersKept w -> timersKept (fst (run inputs w)).
Proof.
  revert w. induction inputs as [|i r IH]; intros w T.
  - exact T.
  - rewrite run_cons_world. apply IH. apply step_timersKept. exact T.
Qed.

Lemma step_options_kept {runtime : Runtime} (i : input) (w : World) :
  clientId (this (fst (step i w))) = clientId (this w)
  /\ _privateKey (this (fst (step i w))) = _privateKey (this w)
  /\ ignoreErrors (_options (this (fst (step i w)))) = ignoreErrors (_options (this w))
  /\ reconnectDelay (_options (this (fst (step i w))))
     = reconnectDelay (_options (this w)).
Proof.
  unfold step. destruct (enabled w i); [|auto].
  destruct i; unfold deliver; try rewrite processMessage_Decode;
    run_methods; simpl; auto.
Qed.

Lemma run_options_kept {runtime : Runtime} (inputs : list input) (w : World) :
  clientId (this (fst (run inputs w))) = clientId (this w)
  /\ _privateKey (this (fst (run inputs w))) = _privateKey (this w)
  /\ ignoreErrors (_options (this (fst (run inputs w)))) = ignoreErrors (_options (this w))
  /\ reconnectDelay (_options (this (fst (run inputs w))))
     = reconnectDelay (_options (this w)).
Proof.
  revert w. induction inputs as [|i r IH]; intros w.
  - auto.
  - rewrite run_cons_world.
    destruct (IH (fst (step i w))) as (A & B & C & D).
    destruct (step_options_kept i w) as (A' & B' & C' & D').
    repeat split; congruence.
Qed.

Lemma initial_options (c k : string) (o : option Overrides) :
  reconnect (_options (this (initial (initialize c k o))))
  = orDefault true (supplied o given_reconnect)
  /\ ignoreErrors (_options (this (initial (initialize c k o))))
     = orDefault true (supplied o given_ignoreErrors)
  /\ reconnectDelay (_options (this (initial (initialize c k o))))
     = orDefault 2000%Z (supplied o given_reconnectDelay).
Proof. destruct o as [[[r|] [e|] [d|]]|]; simpl; auto. Qed.

(** X10.  In every world the engine can reach from a constructed
    instance, the pending timers are exactly the ones the instance
    remembers: at most two, with distinct ids; a pending reconnect timer
    is the one [_reconnectTimeout] names and has the delay
    [reconnectDelay] given at construction (2000 by default); a pending
    liveness timer is the one [_pingTimeout] names and has the delay
    30000; and each timer the instance remembers is pending. *)
Theorem pending_timers_are_remembered {runtime : Runtime} :
  forall (c k : string) (o : option Overrides) (inputs : list input),
    let w := fst (run inputs (initial (initialize c k o))) in
    let delay := orDefault 2000%Z (supplied o given_reconnectDelay) in
    List.length (timers w) <= 2
    /\ NoDup (map tid (timers w))
    /\ (forall x : Timeout,
          In x (timers w) ->
          match tcallback x with
          | reconnectCallback =>
              _reconnectTimeout (this w) = Some (tid x) /\ tdelay x = delay
          | pingCallback =>
              _pingTimeout (this w) = Some (tid x) /\ tdelay x = 30000%Z
          end)
    /\ (forall t : timer,
          _reconnectTimeout (this w) = Some t ->
          findTimer w t
          = Some {| tid := t; tcallback := reconnectCallback; tdelay := delay |})
    /\ (forall t : timer,
          _pingTimeout (this w) = Some t ->
          findTimer w t
          = Some {| tid := t; tcallback := pingCallback; tdelay := 30000 |}).
Proof.
  intros c k o inputs w delay.
  assert (T : timersKept w) by (apply run_timersKept; reflexivity).
  assert (D : reconnectDelay (_options (this w)) = delay).
  { unfold w, delay.
    destruct (run_options_kept inputs (initial (initialize c k o))) as (_ & _ & _ & ->).
    apply initial_options. }
  unfold timersKept, reconnectTimer, pingTimer, findTimer in *.
  rewrite D in T. clear D.
  destruct (_reconnectTimeout (this w)) as [r|], (_pingTimeout (this w)) as [p|];
    timers_cases;
    match goal with H : timers w = _ |- _ => rewrite H end; simpl.
  all: repeat split; try lia.
  all: try (repeat constructor; simpl; intuition (try discriminate; congruence)).
  all: try (intros x [<-|[<-|[]]]; simpl; auto; fail).
  all: try (intros x [<-|[]]; simpl; auto; fail).
  all: try (intros x []; fail).
  all: try (intros t E; injection E as <-; timers_cases; reflexivity).
  all: try discriminate.
Qed.

Lemma connect_turn {runtime : Runtime} (w : World) (i : input) :
  connects w i = true ->
  _pingTimeout (this (fst (step i w))) = None
  /\ (forall p : timer,
        _pingTimeout (this w) = Some p ->
        In (ClearTimeout p) (snd (step i w)))
  /\ (_reconnectTimeout (this (fst (step i w))) = _reconnectTimeout (this w)
      \/ _reconnectTimeout (this (fst (step i w))) = None).
Proof.
  intros C. unfold step.
  assert (E : enabled w i = true).
  { destruct i; simpl in C; try discriminate C; [reflexivity|].
    unfold enabled.
    destruct (findTimer w t); [reflexivity|discriminate C]. }
  rewrite E.
  destruct i; simpl in C; try discriminate C; unfold deliver.
  - run_methods; simpl; repeat split; auto; intros p Ep;
      try discriminate Ep; injection Ep as <-; simpl; auto.
  - destruct (findTimer w t) as [x|] eqn:F; [|discriminate C].
    destruct (tcallback x) eqn:Cb; [|discriminate C].
    run_methods; simpl; repeat split; auto; intros p Ep;
      try discriminate Ep; injection Ep as <-; simpl; auto.
Qed.

(** X11.  Whenever [connect] runs in a reachable world (called by the
    application, or by the reconnect timer), it clears the liveness
    timer if one is pending: afterwards [_pingTimeout] is null, that
    timer no longer exists, and only a reconnect timer can be pending. *)
Theorem connect_cancels_watchdog {runtime : Runtime} :
  forall (c k : string) (o : option Overrides) (inputs : list input) (i : input),
    let w := fst (run inputs (initial (initialize c k o))) in
    let w1 := fst (step i w) in
    connects w i = true ->
    _pingTimeout (this w1) = None
    /\ (forall x : Timeout, In x (timers w1) -> tcallback x = reconnectCallback)
    /\ (forall p : timer,
          _pingTimeout (this w) = Some p ->
          In (ClearTimeout p) (snd (step i w)) /\ findTimer w1 p = None).
Proof.
  intros c k o inputs i w w1 C.
  assert (T : timersKept w) by (apply run_timersKept; reflexivity).
  assert (T1 : timersKept w1) by (apply step_timersKept; exact T).
  destruct (@connect_turn _ w i C) as (P1 & P2 & Q). fold w1 in P1, Q.
  split; [exact P1|].
  unfold timersKept, reconnectTimer, findTimer in T1. rewrite P1 in T1.
  split.
  - intros x Hx.
    destruct (_reconnectTimeout (this w1)) as [r|].
    + destruct T1 as [T1 _]. rewrite T1 in Hx.
      destruct Hx as [<-|[]]. reflexivity.
    + rewrite T1 in Hx. contradiction.
  - intros p Ep. split; [apply P2; exact Ep|].
    unfold findTimer.
    destruct (_reconnectTimeout (this w1)) as [r|] eqn:R1;
      [|rewrite T1; reflexivity].
    destruct T1 as [T1 _]. rewrite T1. simpl.
    destruct (Nat.eqb_spec r p) as [->|]; [|reflexivity].
    exfalso. destruct Q as [Q|Q]; [|discriminate Q].
    symmetry in Q.
    unfold timersKept in T. rewrite Q, Ep in T.
    destruct T as (_ & T & _). apply T. reflexivity.
Qed.

Lemma connect_cancels_watchdog_witness :
  _pingTimeout
    (this (fst (run [AppConnect; SockOpen 0; SockPing 0; AppConnect]
                  (initial exampleProtocol)))) = None
  /\ In (ClearTimeout 0)
       (snd (step AppConnect
               (fst (run [AppConnect; SockOpen 0; SockPing 0]
                       (initial exampleProtocol))))).
Proof.
  destruct (@connect_cancels_watchdog exampleRuntime "client" "KEY" None
              [AppConnect; SockOpen 0; SockPing 0] AppConnect eq_refl)
    as (A & _ & B).
  split; [exact A|]. apply (B 0 eq_refl).
Defined.

(** ** The options at work *)

Lemma step_quiet {runtime : Runtime} (i : input) (w : World) :
  quiet w ->
  quiet (fst (step i w))
  /\ count isReconnectTimer (snd (step i w)) = 0
  /\ count isNewWebSocket (snd (step i w))
     <= (if isAppConnect i then 1 else 0).
Proof.
  intros (R & N & T).
  pose proof (@step_timersKept _ i w T) as T'.
  pose proof (step_reconnect_false i w R) as R'.
  unfold quiet. split; [split; [exact R'|split; [|exact T']]|].
  all: clear T' R'.
  all: unfold step; destruct (enabled w i) eqn:E; auto.
  all: destruct w as [p ss ts n]; destruct p as [c k o s r pt g];
    simpl in R, N; subst r;
    unfold timersKept, reconnectTimer, pingTimer in T; simpl in T.
  all: destruct i; unfold deliver; try rewrite processMessage_Decode;
    unfold enabled, findTimer in E; simpl in E.
  all: destruct pt as [pt|]; timers_cases; subst.
  all: unfold findTimer, removeTimer; simpl.
  all: run_methods; simpl; auto; try discriminate; try congruence.
Qed.

(** X12.  An instance constructed with [reconnect: false] never arms a
    reconnect timer, whatever happens; it creates a transport handle
    only when the application calls [connect], at most one per call. *)
Theorem reconnect_disabled_never_reconnects {runtime : Runtime} :
  forall (c k : string) (e : option bool) (d : option Z) (inputs : list input),
    let o := Some {| given_reconnect := Some false; given_ignoreErrors := e;
                     given_reconnectDelay := d |} in
    let trace := snd (run inputs (initial (initialize c k o))) in
    count isReconnectTimer trace = 0
    /\ count isNewWebSocket trace <= List.length (filter isAppConnect inputs).
Proof.
  intros c k e d inputs o trace. unfold trace.
  assert (Q : quiet (initial (initialize c k o))) by (repeat split).
  clear trace. generalize dependent (initial (initialize c k o)).
  induction inputs as [|i r IH]; intros w Q.
  - simpl. split; [reflexivity|unfold count; simpl; lia].
  - rewrite run_cons_trace, !count_app.
    destruct (@step_quiet _ i w Q) as (Q' & A & B).
    destruct (IH _ Q') as (A' & B').
    split; [lia|]. simpl filter.
    destruct (isAppConnect i); simpl in *; lia.
Qed.

Lemma step_errors {runtime : Runtime} (i : input) (w : World) :
  ignoreErrors (_options (this w)) = true ->
  count isError (snd (step i w)) = count isHandshakeFailure (snd (step i w)).
Proof.
  intros I. unfold step. destruct (enabled w i); [|reflexivity].
  destruct i; unfold deliver; try rewrite processMessage_Decode;
    run_methods; simpl; auto; try congruence.
Qed.

(** X13.  The option [ignoreErrors] given at construction (true by
    default) decides at any later time what an error event of a
    transport handle does: nothing, or the same error re-emitted, with
    no change of state either way.  While it is true, the only error
    events of a run are those of failed challenges. *)
Theorem transport_errors_follow_ignoreErrors {runtime : Runtime} :
  forall (c k : string) (o : option Overrides) (inputs : list input),
    let ignore := orDefault true (supplied o given_ignoreErrors) in
    let w := fst (run inputs (initial (initialize c k o))) in
    (forall (h : handle) (err : exception),
        enabled w (SockError h err) = true ->
        step (SockError h err) w
        = (w, if ignore then [] else [Emit (error err)]))
    /\ (ignore = true ->
        count isError (snd (run inputs (initial (initialize c k o))))
        = count isHandshakeFailure (snd (run inputs (initial (initialize c k o))))).
Proof.
  intros c k o inputs ignore w. split.
  - intros h err E. unfold step. rewrite E. unfold deliver, onError.
    unfold_monad.
    assert (I : ignoreErrors (_options (this w)) = ignore).
    { unfold w, ignore.
      destruct (run_options_kept inputs (initial (initialize c k o)))
        as (_ & _ & -> & _).
      apply initial_options. }
    rewrite I. destruct ignore; reflexivity.
  - intros I. clear w.
    assert (I0 : ignoreErrors (_options (this (initial (initialize c k o)))) = true).
    { destruct (initial_options c k o) as (_ & -> & _). exact I. }
    generalize dependent (initial (initialize c k o)). clear I.
    induction inputs as [|i r IH]; intros w I.
    + reflexivity.
    + rewrite run_cons_trace, !count_app.
      rewrite (@step_errors _ i w I). f_equal. apply IH.
      destruct (step_options_kept i w) as (_ & _ & -> & _). exact I.
Qed.

(** ** The reconnect cycle *)

(** X14.  In a reachable world an open event can only come from the
    handle the instance holds: it emits [connected] and nothing else,
    clears the guard flag, and afterwards that handle is the only one
    connecting or open. *)
Theorem connected_is_the_held_handle {runtime : Runtime} :
  forall (c k : string) (o : option Overrides) (inputs : list input) (h : handle),
    let w := fst (run inputs (initial (initialize c k o))) in
    let w1 := fst (step (SockOpen h) w) in
    enabled w (SockOpen h) = true ->
    _socket (this w) = Some h
    /\ snd (step (SockOpen h) w) = [Emit connected]
    /\ _socket (this w1) = Some h
    /\ stateOf w1 h = OPEN
    /\ _disconnectEmitted (this w1) = false
    /\ (forall h' : handle, active w1 h' = true -> h' = h).
Proof.
  intros c k o inputs h w w1 E.
  assert (T : tidy w) by (apply run_tidy, initial_handles).
  assert (T1 : tidy w1) by (apply step_tidy; exact T).
  assert (Hh : _socket (this w) = Some h).
  { apply active_is_held; [exact T|].
    unfold enabled in E. unfold active.
    apply andb_prop in E. destruct E as [X E]. rewrite X, E. reflexivity. }
  assert (S1 : step (SockOpen h) w
               = ({| this := set_disconnectEmitted false (this w);
                     sockets := update (sockets w) h (set_readyState OPEN);
                     timers := timers w; nextTimer := nextTimer w |},
                  [Emit connected])).
  { unfold step. rewrite E. reflexivity. }
  assert (E1 : w1 = fst (step (SockOpen h) w)) by reflexivity.
  rewrite S1 in E1. simpl in E1.
  assert (H1 : _socket (this w1) = Some h) by (rewrite E1; exact Hh).
  split; [exact Hh|split; [rewrite S1; reflexivity|split; [exact H1|]]].
  split; [|split; [rewrite E1; reflexivity|]].
  - rewrite E1. unfold stateOf. simpl. rewrite nth_error_update_eq.
    unfold enabled, exists_ in E. apply andb_prop in E. destruct E as [X _].
    apply Nat.ltb_lt in X.
    destruct (nth_error (sockets w) h) eqn:N; [reflexivity|].
    apply nth_error_None in N. lia.
  - intros h' A'. pose proof (active_is_held _ T1 A') as Q. congruence.
Qed.

Lemma connected_is_the_held_handle_witness :
  _socket (this (fst (run [AppConnect] (initial exampleProtocol)))) = Some 0
  /\ snd (step (SockOpen 0) (fst (run [AppConnect] (initial exampleProtocol))))
     = [Emit connected].
Proof.
  destruct (@connected_is_the_held_handle exampleRuntime "client" "KEY" None
              [AppConnect] 0 eq_refl) as (A & B & _).
  split; [exact A|exact B].
Defined.

Lemma Forall_update {A} (Q : A -> Prop) (l : list A) (i : nat) (f : A -> A) :
  Forall Q l ->
  (forall x, nth_error l i = Some x -> Q x -> Q (f x)) ->
  Forall Q (update l i f).
Proof.
  intros F. revert i. induction F as [|x l Hx F IH]; intros [|i] H; simpl;
    constructor; auto.
Qed.

Lemma update_update {A} (l : list A) (i : nat) (f g : A -> A) :
  update (update l i f) i g = update l i (fun x => g (f x)).
Proof.
  revert i. induction l as [|x l IH]; intros [|i]; simpl; auto.
  rewrite IH. reflexivity.
Qed.

Lemma step_attached {runtime : Runtime} (i : input) (w : World) :
  attached w -> attached (fst (step i w)).
Proof.
  intros A. unfold step. destruct (enabled w i) eqn:E; [|exact A].
  unfold attached in *.
  destruct i; unfold deliver; try rewrite processMessage_Decode;
    run_methods; simpl; auto.
  all: rewrite ?update_update.
  all: repeat first
         [ apply Forall_app; split; [|repeat constructor; simpl; auto]
         | apply Forall_update;
           [|intros x N Q; simpl; try destruct (readyState x) eqn:?; simpl;
             auto; try congruence] ]; auto.
  all: try (intros _;
    match goal with Q : _ -> onceClose _ = true |- _ => apply Q; congruence end).
  match goal with
  | N : nth_error (sockets w) h = Some ?x, R : readyState ?x = CLOSED |- _ =>
      unfold enabled, stateOf in E; rewrite N, R in E;
      rewrite andb_false_r in E; discriminate E
  end.
Qed.

Lemma run_attached {runtime : Runtime} (inputs : list input) (w : World) :
  attached w -> attached (fst (run inputs w)).
Proof.
  revert w. induction inputs as [|i r IH]; intros w T.
  - exact T.
  - rewrite run_cons_world. apply IH. apply step_attached. exact T.
Qed.

Lemma remembered_reconnect (w : World) (t : timer) :
  timersKept w -> _reconnectTimeout (this w) = Some t ->
  findTimer w t = Some (reconnectTimer w t).
Proof.
  unfold timersKept, findTimer. intros T E. rewrite E in T.
  destruct (_pingTimeout (this w)); timers_cases;
    match goal with H : timers w = _ |- _ => rewrite H end; simpl;
    timers_cases; reflexivity.
Qed.

(** The close event of a handle that is not closed, with reconnection
    enabled. *)
Lemma close_arms_reconnect {runtime : Runtime}
    (w : World) (h : handle) (code : Z) (reason : string) :
  attached w ->
  enabled w (SockClose h code reason) = true ->
  reconnect (_options (this w)) = true ->
  let w1 := fst (step (SockClose h code reason) w) in
  snd (step (SockClose h code reason) w)
  = ((if _disconnectEmitted (this w) then []
      else [Emit (disconnected code reason)])
     ++ match _reconnectTimeout (this w) with
        | Some _ => []
        | None => [SetTimeout (nextTimer w) reconnectCallback
                     (reconnectDelay (_options (this w)))]
        end)%list
  /\ _reconnectTimeout (this w1)
     = Some (match _reconnectTimeout (this w) with
             | Some t => t
             | None => nextTimer w
             end)
  /\ _socket (this w1) = _socket (this w)
  /\ _pingTimeout (this w1) = _pingTimeout (this w)
  /\ _disconnectEmitted (this w1) = true
  /\ reconnect (_options (this w1)) = true
  /\ List.length (sockets w1) = List.length (sockets w)
  /\ stateOf w1 h = CLOSED.
Proof.
  intros A E R w1. unfold w1. clear w1. unfold step. rewrite E.
  unfold enabled in E. apply andb_prop in E. destruct E as [X E].
  apply negb_true_iff in E. unfold exists_ in X. apply Nat.ltb_lt in X.
  unfold stateOf in E.
  destruct (nth_error (sockets w) h) as [x|] eqn:N;
    [|apply nth_error_None in N; lia].
  assert (L : onceClose x = true).
  { unfold attached in A.
    apply (proj1 (Forall_forall _ _) A x (nth_error_In _ _ N)).
    intros C. rewrite C in E. discriminate E. }
  unfold deliver, onClose, _reconnect, markSocket, listening. unfold_monad.
  simpl. rewrite !nth_error_update_eq, N. simpl. rewrite L.
  destruct (_disconnectEmitted (this w)) eqn:G;
    destruct (_reconnectTimeout (this w)) eqn:RT;
    simpl; rewrite ?R, ?RT; simpl; rewrite ?RT; simpl;
    repeat split; auto; rewrite ?length_update; auto;
    unfold stateOf; simpl; rewrite update_update, nth_error_update_eq, N;
    reflexivity.
Qed.

(** The reconnect timer fires while the held handle is closed: a handle
    is created for the address [new URL] gives, none when it throws. *)
Lemma reconnect_reopens {runtime : Runtime} (w : World) (t : timer) (x : Timeout)
    (h : handle) :
  findTimer w t = Some x ->
  tcallback x = reconnectCallback ->
  _socket (this w) = Some h ->
  stateOf w h = CLOSED ->
  let w1 := fst (step (TimerFired t) w) in
  let h' := List.length (sockets w) in
  snd (step (TimerFired t) w)
  = (match _pingTimeout (this w) with
     | Some p => [ClearTimeout p]
     | None => []
     end ++ match URL ("/" ++ clientId (this w)) ADDRESS with
            | Some address => [NewWebSocket h' address]
            | None => []
            end)%list
  /\ _socket (this w1)
     = match URL ("/" ++ clientId (this w)) ADDRESS with
       | Some _ => Some h'
       | None => None
       end
  /\ (URL ("/" ++ clientId (this w)) ADDRESS <> None ->
      stateOf w1 h' = CONNECTING)
  /\ _reconnectTimeout (this w1) = None
  /\ _pingTimeout (this w1) = None.
Proof.
  intros F C S St w1 h'. unfold w1, h'. clear w1 h'.
  unfold step, enabled, deliver. rewrite F, C.
  unfold reconnectTimeoutCallback, connect, openSocket. unfold_monad.
  unfold stateOf in *.
  destruct (_pingTimeout (this w)) eqn:P; simpl; rewrite ?P; simpl;
    rewrite ?S; simpl; rewrite ?St; simpl;
    (destruct (URL (String "/" (clientId (this w))) ADDRESS) as [address|];
     simpl;
     [ repeat split; auto;
       rewrite nth_error_app2, Nat.sub_diag by lia; reflexivity
     | repeat split; auto; contradiction ]).
Qed.

(** X15.  In a reachable world with reconnection enabled, the close
    event of the held handle emits [disconnected] (unless one was
    emitted since the last open) and leaves a reconnect timer pending
    with the configured delay: a new one, or the one already pending.
    When that timer fires next, [connect] clears the liveness timer and
    resolves [new URL("/" + clientId, ADDRESS)]: when that gives an
    address it creates one new handle for it and holds it, connecting;
    when it throws, no handle is created and the instance holds none. *)
Theorem closed_connection_is_reopened {runtime : Runtime} :
  forall (c k : string) (o : option Overrides) (inputs : list input)
         (h : handle) (code : Z) (reason : string),
    let w := fst (run inputs (initial (initialize c k o))) in
    _socket (this w) = Some h ->
    enabled w (SockClose h code reason) = true ->
    reconnect (_options (this w)) = true ->
    let w1 := fst (step (SockClose h code reason) w) in
    let delay := orDefault 2000%Z (supplied o given_reconnectDelay) in
    let h' := List.length (sockets w) in
    exists t : timer,
      snd (step (SockClose h code reason) w)
      = ((if _disconnectEmitted (this w) then []
          else [Emit (disconnected code reason)])
         ++ match _reconnectTimeout (this w) with
            | Some _ => []
            | None => [SetTimeout t reconnectCallback delay]
            end)%list
      /\ findTimer w1 t
         = Some {| tid := t; tcallback := reconnectCallback; tdelay := delay |}
      /\ snd (step (TimerFired t) w1)
         = (match _pingTimeout (this w) with
            | Some p => [ClearTimeout p]
            | None => []
            end ++ match URL ("/" ++ c) ADDRESS with
                   | Some address => [NewWebSocket h' address]
                   | None => []
                   end)%list
      /\ _socket (this (fst (step (TimerFired t) w1)))
         = match URL ("/" ++ c) ADDRESS with
           | Some _ => Some h'
           | None => None
           end
      /\ (URL ("/" ++ c) ADDRESS <> None ->
          stateOf (fst (step (TimerFired t) w1)) h' = CONNECTING).
Proof.
  intros c k o inputs h code reason w Hs E R w1 delay h'.
  assert (A : attached w) by (apply run_attached; constructor).
  assert (T : timersKept w1)
    by (apply step_timersKept, run_timersKept; reflexivity).
  destruct (run_options_kept inputs (initial (initialize c k o)))
    as (Hc & _ & _ & Hd).
  fold w in Hc, Hd. simpl in Hc.
  destruct (initial_options c k o) as (_ & _ & Hd'). rewrite Hd' in Hd.
  fold delay in Hd.
  destruct (step_options_kept (SockClose h code reason) w) as (Hc1 & _ & _ & Hd1).
  fold w1 in Hc1, Hd1.
  destruct (@close_arms_reconnect _ w h code reason A E R)
    as (Tr & Ht & Hs1 & Hp1 & _ & _ & Hl & St).
  fold w1 in Ht, Hs1, Hp1, Hl, St.
  pose proof (@remembered_reconnect w1 _ T Ht) as F.
  unfold reconnectTimer in F. rewrite Hd1, Hd in F.
  rewrite Hs in Hs1.
  destruct (@reconnect_reopens _ w1 _ _ h F eq_refl Hs1 St)
    as (Tr2 & S2 & C2 & _ & _).
  rewrite Hl, Hp1, Hc1, Hc in Tr2. rewrite Hl, Hc1, Hc in S2, C2.
  eexists. split; [|split; [exact F|split; [exact Tr2|split; [exact S2|exact C2]]]].
  rewrite Tr, Hd. destruct (_reconnectTimeout (this w)); reflexivity.
Qed.

Lemma closed_connection_is_reopened_witness :
  exists t : timer,
    snd (step (SockClose 0 1006 "") exampleOpen)
    = [Emit (disconnected 1006 ""); SetTimeout t reconnectCallback 2000]
    /\ snd (step (TimerFired t) (fst (step (SockClose 0 1006 "") exampleOpen)))
       = [NewWebSocket 1 "wss://ws.webhookify.net/client"]
    /\ _socket (this (fst (step (TimerFired t)
                             (fst (step (SockClose 0 1006 "") exampleOpen)))))
       = Some 1.
Proof.
  destruct (@closed_connection_is_reopened exampleRuntime "client" "KEY" None
              [AppConnect; SockOpen 0] 0 1006 "" eq_refl eq_refl eq_refl)
    as (t & A & _ & B & C & _).
  exists t. split; [exact A|split; [exact B|exact C]].
Defined.

(** The expiry of the liveness timer, reconnection enabled and none
    pending: the handles are left as they are. *)
Lemma ping_expiry_step {runtime : Runtime} (w : World) (p : timer) (x : Timeout) :
  findTimer w p = Some x ->
  tcallback x = pingCallback ->
  reconnect (_options (this w)) = true ->
  _reconnectTimeout (this w) = None ->
  step (TimerFired p) w
  = ({| this := set_reconnectTimeout (Some (nextTimer w))
                  (set_pingTimeout None (this w));
        sockets := sockets w;
        timers := (removeTimer p (timers w)
                   ++ [{| tid := nextTimer w; tcallback := reconnectCallback;
                          tdelay := reconnectDelay (_options (this w)) |}])%list;
        nextTimer := S (nextTimer w) |},
     [Emit (disconnected 0 "Ping timeout");
      SetTimeout (nextTimer w) reconnectCallback
        (reconnectDelay (_options (this w)))]).
Proof.
  intros F C R N. unfold step, enabled, deliver. rewrite F, C.
  unfold pingTimeoutCallback, _reconnect. unfold_monad. simpl.
  rewrite R. simpl. rewrite N. reflexivity.
Qed.

(** The reconnect timer fires while the held handle is not closed:
    [connect] asks it to close and returns. *)
Lemma reconnect_closes_step {runtime : Runtime} (w : World) (t : timer)
    (x : Timeout) (h : handle) :
  findTimer w t = Some x ->
  tcallback x = reconnectCallback ->
  _pingTimeout (this w) = None ->
  _socket (this w) = Some h ->
  stateOf w h <> CLOSED ->
  step (TimerFired t) w
  = ({| this := set_reconnectTimeout None (this w);
        sockets := update (sockets w) h
                     (fun s => match readyState s with
                               | CLOSED => s
                               | _ => set_readyState CLOSING s
                               end);
        timers := removeTimer t (timers w);
        nextTimer := nextTimer w |},
     [Close h]).
Proof.
  intros F C P S St. unfold step, enabled, deliver. rewrite F, C.
  unfold reconnectTimeoutCallback, connect. unfold_monad. simpl.
  rewrite P. simpl. rewrite S. simpl.
  unfold stateOf in *. simpl.
  destruct (nth_error (sockets w) h) as [s|]; [|contradiction].
  destruct (readyState s); try contradiction; reflexivity.
Qed.

(** The close event of a handle whose listener is attached,
    reconnection enabled and none pending. *)
Lemma close_step {runtime : Runtime} (w : World) (h : handle) (s : WebSocket)
    (code : Z) (reason : string) :
  nth_error (sockets w) h = Some s ->
  readyState s <> CLOSED ->
  onceClose s = true ->
  reconnect (_options (this w)) = true ->
  _reconnectTimeout (this w) = None ->
  step (SockClose h code reason) w
  = ({| this := set_reconnectTimeout (Some (nextTimer w))
                  (if _disconnectEmitted (this w) then this w
                   else set_disconnectEmitted true (this w));
        sockets := update (sockets w) h
                     (fun s => detachClose (set_readyState CLOSED s));
        timers := (timers w
                   ++ [{| tid := nextTimer w; tcallback := reconnectCallback;
                          tdelay := reconnectDelay (_options (this w)) |}])%list;
        nextTimer := S (nextTimer w) |},
     ((if _disconnectEmitted (this w) then []
       else [Emit (disconnected code reason)])
      ++ [SetTimeout (nextTimer w) reconnectCallback
            (reconnectDelay (_options (this w)))])%list).
Proof.
  intros N St L R Rt. unfold step, enabled, exists_, stateOf. rewrite N.
  assert (X : Nat.ltb h (List.length (sockets w)) = true).
  { apply Nat.ltb_lt. apply nth_error_Some. congruence. }
  rewrite X.
  assert (C : ReadyState_eqb (readyState s) CLOSED = false)
    by (destruct (readyState s); try reflexivity; contradiction).
  rewrite C. simpl.
  unfold deliver, onClose, _reconnect, markSocket, listening. unfold_monad.
  simpl. rewrite !nth_error_update_eq, N. simpl. rewrite L.
  destruct (_disconnectEmitted (this w)) eqn:G; simpl; rewrite R; simpl;
    rewrite Rt; simpl; rewrite update_update; reflexivity.
Qed.

(** X16.  The recovery after a liveness timeout, in a reachable world
    where the held handle is open, reconnection is enabled and no
    reconnect is pending.  The expiry emits [disconnected] with code 0
    and arms the reconnect timer; it does not touch the handle.  When
    that timer fires, [connect] asks the handle to close and returns.
    The close event emits [disconnected] a second time (unless the guard
    flag was set) and arms a second reconnect timer; only when that one
    fires does [connect] resolve [new URL("/" + clientId, ADDRESS)] and
    create the new handle, for the address it gives; when it throws, no
    handle is created and the instance holds none. *)
Theorem liveness_timeout_recovery {runtime : Runtime} :
  forall (c k : string) (o : option Overrides) (inputs : list input)
         (h : handle) (p : timer) (code : Z) (reason : string),
    let w := fst (run inputs (initial (initialize c k o))) in
    _socket (this w) = Some h ->
    stateOf w h = OPEN ->
    _pingTimeout (this w) = Some p ->
    _reconnectTimeout (this w) = None ->
    reconnect (_options (this w)) = true ->
    let n := nextTimer w in
    let delay := orDefault 2000%Z (supplied o given_reconnectDelay) in
    let r := run [TimerFired p; TimerFired n; SockClose h code reason;
                  TimerFired (S n)] w in
    snd r
    = ([Emit (disconnected 0 "Ping timeout");
        SetTimeout n reconnectCallback delay;
        Close h]
       ++ (if _disconnectEmitted (this w) then []
           else [Emit (disconnected code reason)])
       ++ [SetTimeout (S n) reconnectCallback delay]
       ++ match URL ("/" ++ c) ADDRESS with
          | Some address => [NewWebSocket (List.length (sockets w)) address]
          | None => []
          end)%list
    /\ sockets (fst (step (TimerFired p) w)) = sockets w
    /\ _socket (this (fst r))
       = match URL ("/" ++ c) ADDRESS with
         | Some _ => Some (List.length (sockets w))
         | None => None
         end
    /\ (URL ("/" ++ c) ADDRESS <> None ->
        stateOf (fst r) (List.length (sockets w)) = CONNECTING).
Proof.
  intros c k o inputs h p code reason w Hs Ho Hp Hr Rc n delay r.
  assert (A : attached w) by (apply run_attached; constructor).
  assert (T : timersKept w) by (apply run_timersKept; reflexivity).
  destruct (run_options_kept inputs (initial (initialize c k o)))
    as (Hc & _ & _ & Hd).
  fold w in Hc, Hd. simpl in Hc.
  destruct (initial_options c k o) as (_ & _ & Hd'). rewrite Hd' in Hd.
  fold delay in Hd. clear Hd'.
  unfold timersKept, pingTimer in T. rewrite Hr, Hp in T. destruct T as [Tt Tn].
  fold n in Tn.
  unfold stateOf in Ho.
  destruct (nth_error (sockets w) h) as [s|] eqn:N; [|discriminate Ho].
  assert (L : onceClose s = true).
  { apply (proj1 (Forall_forall _ _) A s (nth_error_In _ _ N)). congruence. }
  (* the liveness timer expires *)
  assert (F1 : findTimer w p = Some {| tid := p; tcallback := pingCallback;
                                        tdelay := 30000 |}).
  { unfold findTimer. rewrite Tt. simpl. rewrite Nat.eqb_refl. reflexivity. }
  pose proof (@ping_expiry_step _ w p _ F1 eq_refl Rc Hr) as S1.
  rewrite Tt in S1. unfold removeTimer in S1. simpl in S1.
  rewrite Nat.eqb_refl in S1. simpl in S1. fold n in S1. rewrite Hd in S1.
  set (w1 := fst (step (TimerFired p) w)).
  (* the reconnect timer fires: the handle is asked to close *)
  assert (S2 : step (TimerFired n) w1
               = ({| this := set_reconnectTimeout None (this w1);
                     sockets := update (sockets w1) h
                                  (fun s => match readyState s with
                                            | CLOSED => s
                                            | _ => set_readyState CLOSING s
                                            end);
                     timers := removeTimer n (timers w1);
                     nextTimer := nextTimer w1 |}, [Close h])).
  { unfold w1. rewrite S1. simpl fst.
    eapply reconnect_closes_step.
    - unfold findTimer. simpl. rewrite Nat.eqb_refl. reflexivity.
    - reflexivity.
    - reflexivity.
    - exact Hs.
    - unfold stateOf. simpl. rewrite N, Ho. discriminate. }
  set (w2 := fst (step (TimerFired n) w1)).
  assert (E1 : w1 = fst (step (TimerFired p) w)) by reflexivity.
  rewrite S1 in E1. simpl in E1.
  assert (E2 : w2 = fst (step (TimerFired n) w1)) by reflexivity.
  rewrite S2 in E2. simpl in E2. rewrite E1 in E2. simpl in E2.
  unfold removeTimer in E2. simpl in E2. rewrite Nat.eqb_refl in E2. simpl in E2.
  (* the close event *)
  assert (N2 : nth_error (sockets w2) h = Some (set_readyState CLOSING s)).
  { rewrite E2. simpl. rewrite nth_error_update_eq, N. simpl. rewrite Ho.
    reflexivity. }
  assert (R2 : reconnect (_options (this w2)) = true) by (rewrite E2; exact Rc).
  assert (T2 : _reconnectTimeout (this w2) = None) by (rewrite E2; reflexivity).
  assert (G2 : _disconnectEmitted (this w2) = _disconnectEmitted (this w))
    by (rewrite E2; reflexivity).
  assert (X2 : nextTimer w2 = S n) by (rewrite E2; reflexivity).
  assert (D2 : reconnectDelay (_options (this w2)) = delay)
    by (rewrite E2; exact Hd).
  assert (Hs2 : _socket (this w2) = Some h) by (rewrite E2; exact Hs).
  assert (P2 : _pingTimeout (this w2) = None) by (rewrite E2; reflexivity).
  assert (C2 : clientId (this w2) = c) by (rewrite E2; exact Hc).
  assert (Tm2 : timers w2 = []) by (rewrite E2; reflexivity).
  assert (L2 : List.length (sockets w2) = List.length (sockets w))
    by (rewrite E2; simpl; apply length_update).
  pose proof (@close_step _ w2 h _ code reason N2 ltac:(discriminate) L R2 T2)
    as S3.
  rewrite G2, X2, D2, Tm2 in S3.
  set (w3 := fst (step (SockClose h code reason) w2)).
  assert (E3 : w3 = fst (step (SockClose h code reason) w2)) by reflexivity.
  rewrite S3 in E3. simpl in E3.
  (* the second reconnect timer fires: a new handle *)
  assert (F4 : findTimer w3 (S n)
               = Some {| tid := S n; tcallback := reconnectCallback;
                         tdelay := delay |}).
  { rewrite E3. unfold findTimer. simpl. rewrite Nat.eqb_refl. reflexivity. }
  assert (Hs3 : _socket (this w3) = Some h).
  { rewrite E3. simpl. destruct (_disconnectEmitted (this w)); exact Hs2. }
  assert (St3 : stateOf w3 h = CLOSED).
  { rewrite E3. unfold stateOf. simpl. rewrite nth_error_update_eq, N2.
    reflexivity. }
  destruct (@reconnect_reopens _ w3 _ _ h F4 eq_refl Hs3 St3)
    as (Tr4 & S4 & C4 & _ & _).
  assert (P3 : _pingTimeout (this w3) = None).
  { rewrite E3. simpl. destruct (_disconnectEmitted (this w)); exact P2. }
  assert (L3 : List.length (sockets w3) = List.length (sockets w)).
  { rewrite E3. simpl. rewrite length_update. exact L2. }
  assert (C3 : clientId (this w3) = c).
  { rewrite E3. simpl. destruct (_disconnectEmitted (this w)); exact C2. }
  rewrite P3, L3, C3 in Tr4. rewrite L3, C3 in S4, C4.
  (* the run *)
  unfold r.
  rewrite !run_cons_world, !run_cons_trace. fold w1. fold w2. fold w3.
  rewrite Tr4, S3, S2, S1. simpl run. simpl fst. simpl snd.
  split; [|split; [rewrite E1; reflexivity|split; [exact S4|exact C4]]].
  destruct (_disconnectEmitted (this w)), (URL ("/" ++ c) ADDRESS);
    reflexivity.
Qed.

Lemma liveness_timeout_recovery_witness :
  snd (run [TimerFired 0; TimerFired 1; SockClose 0 1006 ""; TimerFired 2]
         (fst (run [AppConnect; SockOpen 0; SockPing 0]
                 (initial exampleProtocol))))
  = [Emit (disconnected 0 "Ping timeout");
     SetTimeout 1 reconnectCallback 2000;
     Close 0;
     Emit (disconnected 1006 "");
     SetTimeout 2 reconnectCallback 2000;
     NewWebSocket 1 "wss://ws.webhookify.net/client"].
Proof.
  destruct (@liveness_timeout_recovery exampleRuntime "client" "KEY" None
              [AppConnect; SockOpen 0; SockPing 0] 0 0 1006 ""
              eq_refl eq_refl eq_refl eq_refl eq_refl) as (A & _).
  exact A.
Defined.

(** The unexpected-response event of a connecting handle whose listener
    is attached, reconnection enabled and none pending. *)
Lemma unexpected_response_step {runtime : Runtime} (w : World) (h : handle)
    (s : WebSocket) (statusCode : Z) :
  nth_error (sockets w) h = Some s ->
  readyState s = CONNECTING ->
  onceUnexpected s = true ->
  reconnect (_options (this w)) = true ->
  _reconnectTimeout (this w) = None ->
  step (SockUnexpectedResponse h statusCode) w
  = ({| this := set_reconnectTimeout (Some (nextTimer w))
                  (if _disconnectEmitted (this w) then this w
                   else set_disconnectEmitted true (this w));
        sockets := update (sockets w) h detachUnexpected;
        timers := (timers w
                   ++ [{| tid := nextTimer w; tcallback := reconnectCallback;
                          tdelay := reconnectDelay (_options (this w)) |}])%list;
        nextTimer := S (nextTimer w) |},
     ((if _disconnectEmitted (this w) then []
       else [Emit (disconnected statusCode "")])
      ++ [SetTimeout (nextTimer w) reconnectCallback
            (reconnectDelay (_options (this w)))])%list).
Proof.
  intros N St L R Rt. unfold step, enabled, exists_, stateOf. rewrite N.
  assert (X : Nat.ltb h (List.length (sockets w)) = true).
  { apply Nat.ltb_lt. apply nth_error_Some. congruence. }
  rewrite X, St. simpl.
  unfold deliver, onUnexpectedResponse, _reconnect, markSocket, listening.
  unfold_monad. simpl. rewrite N, L.
  destruct (_disconnectEmitted (this w)) eqn:G; simpl; rewrite R; simpl;
    rewrite Rt; simpl; reflexivity.
Qed.

(** X17.  The recovery after a handshake refused with an HTTP status, in
    a reachable world where the held handle is connecting, reconnection
    is enabled and no timer is pending.  The unexpected-response event
    emits [disconnected] with the status code (unless the guard flag is
    set), arms the reconnect timer and leaves the handle connecting.
    When the timer fires, [connect] asks the handle to close and
    returns.  The close event emits nothing, the guard flag being set,
    and arms a second reconnect timer; only when that one fires does
    [connect] resolve [new URL("/" + clientId, ADDRESS)] and create the
    new handle, for the address it gives; when it throws, no handle is
    created and the instance holds none.  Stated for [ignoreErrors]
    true: what the transport reports of the handshake it is asked to
    abandon is then ignored. *)
Theorem unexpected_response_recovery {runtime : Runtime} :
  forall (c k : string) (o : option Overrides) (inputs : list input)
         (h : handle) (statusCode code : Z) (reason : string),
    let w := fst (run inputs (initial (initialize c k o))) in
    _socket (this w) = Some h ->
    stateOf w h = CONNECTING ->
    listening w h onceUnexpected = true ->
    _pingTimeout (this w) = None ->
    _reconnectTimeout (this w) = None ->
    reconnect (_options (this w)) = true ->
    ignoreErrors (_options (this w)) = true ->
    let n := nextTimer w in
    let delay := orDefault 2000%Z (supplied o given_reconnectDelay) in
    let r := run [SockUnexpectedResponse h statusCode; TimerFired n;
                  SockClose h code reason; TimerFired (S n)] w in
    snd r
    = ((if _disconnectEmitted (this w) then []
        else [Emit (disconnected statusCode "")])
       ++ [SetTimeout n reconnectCallback delay;
           Close h;
           SetTimeout (S n) reconnectCallback delay]
       ++ match URL ("/" ++ c) ADDRESS with
          | Some address => [NewWebSocket (List.length (sockets w)) address]
          | None => []
          end)%list
    /\ stateOf (fst (step (SockUnexpectedResponse h statusCode) w)) h
       = CONNECTING
    /\ _socket (this (fst r))
       = match URL ("/" ++ c) ADDRESS with
         | Some _ => Some (List.length (sockets w))
         | None => None
         end
    /\ (URL ("/" ++ c) ADDRESS <> None ->
        stateOf (fst r) (List.length (sockets w)) = CONNECTING).
Proof.
  intros c k o inputs h statusCode code reason w Hs Ho Hl Hp Hr Rc _ n delay r.
  assert (A : attached w) by (apply run_attached; constructor).
  assert (T : timersKept w) by (apply run_timersKept; reflexivity).
  destruct (run_options_kept inputs (initial (initialize c k o)))
    as (Hc & _ & _ & Hd).
  fold w in Hc, Hd. simpl in Hc.
  destruct (initial_options c k o) as (_ & _ & Hd'). rewrite Hd' in Hd.
  fold delay in Hd. clear Hd'.
  unfold timersKept in T. rewrite Hr, Hp in T.
  unfold stateOf in Ho. unfold listening in Hl.
  destruct (nth_error (sockets w) h) as [s|] eqn:N; [|discriminate Ho].
  assert (L : onceClose s = true).
  { apply (proj1 (Forall_forall _ _) A s (nth_error_In _ _ N)). congruence. }
  (* the handshake is answered with an HTTP error *)
  pose proof (@unexpected_response_step _ w h s statusCode N Ho Hl Rc Hr) as S1.
  rewrite T in S1. fold n in S1. rewrite Hd in S1. simpl app in S1.
  set (w1 := fst (step (SockUnexpectedResponse h statusCode) w)).
  assert (E1 : w1 = fst (step (SockUnexpectedResponse h statusCode) w))
    by reflexivity.
  rewrite S1 in E1. simpl in E1.
  assert (N1 : nth_error (sockets w1) h = Some (detachUnexpected s)).
  { rewrite E1. simpl. rewrite nth_error_update_eq, N. reflexivity. }
  assert (St1 : stateOf w1 h = CONNECTING).
  { unfold stateOf. rewrite N1. exact Ho. }
  (* the reconnect timer fires: the handle is asked to close *)
  assert (S2 : step (TimerFired n) w1
               = ({| this := set_reconnectTimeout None (this w1);
                     sockets := update (sockets w1) h
                                  (fun s => match readyState s with
                                            | CLOSED => s
                                            | _ => set_readyState CLOSING s
                                            end);
                     timers := removeTimer n (timers w1);
                     nextTimer := nextTimer w1 |}, [Close h])).
  { eapply reconnect_closes_step.
    - rewrite E1. unfold findTimer. simpl. rewrite Nat.eqb_refl. reflexivity.
    - reflexivity.
    - rewrite E1. simpl. destruct (_disconnectEmitted (this w)); exact Hp.
    - rewrite E1. simpl. destruct (_disconnectEmitted (this w)); exact Hs.
    - rewrite St1. discriminate. }
  set (w2 := fst (step (TimerFired n) w1)).
  assert (E2 : w2 = fst (step (TimerFired n) w1)) by reflexivity.
  rewrite S2 in E2. simpl in E2.
  (* the close event: the guard flag is set, nothing is emitted *)
  assert (N2 : nth_error (sockets w2) h
               = Some (set_readyState CLOSING (detachUnexpected s))).
  { rewrite E2. simpl. rewrite nth_error_update_eq, N1. simpl. rewrite Ho.
    reflexivity. }
  assert (R2 : reconnect (_options (this w2)) = true).
  { rewrite E2, E1. simpl. destruct (_disconnectEmitted (this w)); exact Rc. }
  assert (T2 : _reconnectTimeout (this w2) = None) by (rewrite E2; reflexivity).
  assert (G2 : _disconnectEmitted (this w2) = true).
  { rewrite E2, E1. simpl.
    destruct (_disconnectEmitted (this w)) eqn:G; [exact G|reflexivity]. }
  assert (X2 : nextTimer w2 = S n) by (rewrite E2, E1; reflexivity).
  assert (D2 : reconnectDelay (_options (this w2)) = delay).
  { rewrite E2, E1. simpl. destruct (_disconnectEmitted (this w)); exact Hd. }
  assert (Hs2 : _socket (this w2) = Some h).
  { rewrite E2, E1. simpl. destruct (_disconnectEmitted (this w)); exact Hs. }
  assert (P2 : _pingTimeout (this w2) = None).
  { rewrite E2, E1. simpl. destruct (_disconnectEmitted (this w)); exact Hp. }
  assert (C2 : clientId (this w2) = c).
  { rewrite E2, E1. simpl. destruct (_disconnectEmitted (this w)); exact Hc. }
  assert (Tm2 : timers w2 = []).
  { rewrite E2, E1. unfold removeTimer. simpl. rewrite Nat.eqb_refl.
    reflexivity. }
  assert (L2 : List.length (sockets w2) = List.length (sockets w)).
  { rewrite E2, E1. simpl. rewrite !length_update. reflexivity. }
  pose proof (@close_step _ w2 h _ code reason N2 ltac:(discriminate) L R2 T2)
    as S3.
  rewrite G2, X2, D2, Tm2 in S3.
  set (w3 := fst (step (SockClose h code reason) w2)).
  assert (E3 : w3 = fst (step (SockClose h code reason) w2)) by reflexivity.
  rewrite S3 in E3. simpl in E3.
  (* the second reconnect timer fires: a new handle *)
  assert (F4 : findTimer w3 (S n)
               = Some {| tid := S n; tcallback := reconnectCallback;
                         tdelay := delay |}).
  { rewrite E3. unfold findTimer. simpl. rewrite Nat.eqb_refl. reflexivity. }
  assert (Hs3 : _socket (this w3) = Some h) by (rewrite E3; exact Hs2).
  assert (St3 : stateOf w3 h = CLOSED).
  { rewrite E3. unfold stateOf. simpl. rewrite nth_error_update_eq, N2.
    reflexivity. }
  destruct (@reconnect_reopens _ w3 _ _ h F4 eq_refl Hs3 St3)
    as (Tr4 & S4 & C4 & _ & _).
  assert (P3 : _pingTimeout (this w3) = None) by (rewrite E3; exact P2).
  assert (L3 : List.length (sockets w3) = List.length (sockets w)).
  { rewrite E3. simpl. rewrite length_update. exact L2. }
  assert (C3 : clientId (this w3) = c) by (rewrite E3; exact C2).
  rewrite P3, L3, C3 in Tr4. rewrite L3, C3 in S4, C4.
  (* the run *)
  unfold r.
  rewrite !run_cons_world, !run_cons_trace. fold w1. fold w2. fold w3.
  rewrite Tr4, S3, S2, S1. simpl run. simpl fst. simpl snd.
  split; [|split; [exact St1|split; [exact S4|exact C4]]].
  destruct (_disconnectEmitted (this w)), (URL ("/" ++ c) ADDRESS);
    reflexivity.
Qed.

Lemma unexpected_response_recovery_witness :
  snd (run [SockUnexpectedResponse 0 503; TimerFired 0; SockClose 0 1006 "";
            TimerFired 1]
         (fst (run [AppConnect] (initial exampleProtocol))))
  = [Emit (disconnected 503 "");
     SetTimeout 0 reconnectCallback 2000;
     Close 0;
     SetTimeout 1 reconnectCallback 2000;
     NewWebSocket 1 "wss://ws.webhookify.net/client"].
Proof.
  destruct (@unexpected_response_recovery exampleRuntime "client" "KEY" None
              [AppConnect] 0 503 1006 ""
              eq_refl eq_refl eq_refl eq_refl eq_refl eq_refl eq_refl)
    as (A & _).
  exact A.
Defined.
